(** * simpleparse: HTML to plain text

    A shallow embedding of the Go package [simpleparse] (file
    [simpleparse.go]) and the properties of its parse loop, its default
    text builder and its three entry points.

    Go strings are byte strings: they are modelled as [string], one
    [ascii] per byte.  Go maps are modelled as [gmap]; indexing a Go
    map at an absent key yields the zero value of the value type. *)

From Stdlib Require Import ZArith Ascii.
From stdpp Require Import gmap strings list.

Local Open Scope Z_scope.

(** ** Byte and string helpers *)

Definition byte_of (n : N) : ascii := Ascii.ascii_of_N n.
Definition code (a : ascii) : N := Ascii.N_of_ascii a.

Definition LF : ascii := byte_of 10.
Definition CR : ascii := byte_of 13.
Definition SP : ascii := byte_of 32.

(** [strings.Repeat(s, count)] for a count that is not negative. *)
Fixpoint repeat_string (s : string) (count : nat) : string :=
  match count with
  | O => ""
  | S k => s +:+ repeat_string s k
  end.

(** [strings.Repeat] takes a Go [int]; a negative count panics in Go and
    never occurs here (see [breakers_nonneg]). *)
Definition Repeat (s : string) (count : Z) : string :=
  repeat_string s (Z.to_nat count).

(** ** Package-level tables (lines 14-61) *)

(** Indexing a [map[string]bool]: absent keys read [false]. *)
Definition index_bool (m : gmap string bool) (k : string) : bool :=
  default false (m !! k).

(** Indexing a [map[string]int]: absent keys read [0]. *)
Definition index_int (m : gmap string Z) (k : string) : Z :=
  default 0 (m !! k).

Definition voidElements : gmap string bool :=
  list_to_map
    [ ("area", true); ("base", true); ("br", true); ("col", true);
      ("command", true); ("embed", true); ("hr", true); ("img", true);
      ("input", true); ("keygen", true); ("link", true); ("meta", true);
      ("param", true); ("source", true); ("track", true); ("wbr", true) ].

Definition selfBreakers : gmap string Z :=
  list_to_map [ ("br", 1) ].

Definition openingBreakers : gmap string Z :=
  list_to_map
    [ ("p", 1); ("h1", 2); ("h2", 2); ("h3", 2); ("h4", 2); ("h5", 2);
      ("h6", 2); ("ul", 1) ].

Definition closingBreakers : gmap string Z :=
  list_to_map
    [ ("p", 1); ("h1", 2); ("h2", 2); ("h3", 2); ("h4", 2); ("h5", 2);
      ("h6", 2); ("li", 1) ].

(** ** Errors

    A Go [error] is either one of the sentinel values of the libraries
    ([io.EOF], and the two other errors the tokenizer can end with), which
    are compared by identity, or a value built by [errors.New] or
    [fmt.Errorf], which carries only its message. *)

Inductive error : Type :=
  | io_EOF
  | io_ErrNoProgress
  | html_ErrBufferExceeded
  | errorString (msg : string).

#[global] Instance error_eq_dec : EqDecision error.
Proof. solve_decision. Defined.

(** The [Error()] method. *)
Definition Error (e : error) : string :=
  match e with
  | io_EOF => "EOF"
  | io_ErrNoProgress => "multiple Read calls return no data or error"
  | html_ErrBufferExceeded => "max buffer exceeded"
  | errorString msg => msg
  end.

Definition errors_New (msg : string) : error := errorString msg.

(** The four errors [simpleParse] builds, under the names of the
    specification's taxonomy. *)
Definition UnterminatedTagError (popped : string) : error :=
  errorString ("Unterminated tag: <" +:+ popped +:+ ">").
Definition StrayEndTagError (tag : string) : error :=
  errorString ("End tag without start: </" +:+ tag +:+ ">").
Definition TagMismatchError (popped tag : string) : error :=
  errorString ("Tag mismatch: <" +:+ popped +:+ "> with </" +:+ tag +:+ ">").
Definition NoTagsError : error := errors_New "Contains no tags".

(** ** The tag stack

    [github.com/golang-collections/collections/stack]: a LIFO of
    [interface{}] values.  [Pop] and [Peek] return [nil] on an empty
    stack. *)

Inductive any : Type :=
  | any_nil
  | any_string (s : string).

(** The type assertion [v.(string)]; [None] is the run-time panic. *)
Definition assert_string (v : any) : option string :=
  match v with
  | any_string s => Some s
  | any_nil => None
  end.

Module stack.
Definition Stack : Type := list any.
Definition New : Stack := [].
Definition Len (s : Stack) : Z := Z.of_nat (length s).
Definition Push (v : any) (s : Stack) : Stack := v :: s.
Definition Peek (s : Stack) : any :=
  match s with
  | [] => any_nil
  | v :: _ => v
  end.
Definition Pop (s : Stack) : any * Stack :=
  match s with
  | [] => (any_nil, [])
  | v :: rest => (v, rest)
  end.
End stack.

(** ** Tokens

    What [simpleParse] reads of the tokenizer of [golang.org/x/net/html]
    at each turn of its loop: the token type returned by [Next], the tag
    name returned by [TagName] (empty unless the token is a tag) and, for
    a text token, the bytes returned by [Text]. *)

Inductive TokenType : Type :=
  | ErrorToken
  | TextToken
  | StartTagToken
  | EndTagToken
  | SelfClosingTagToken
  | CommentToken
  | DoctypeToken.

#[global] Instance TokenType_eq_dec : EqDecision TokenType.
Proof. solve_decision. Defined.

Inductive Token : Type :=
  | TextTok (text : string)
  | StartTagTok (name : string)
  | EndTagTok (name : string)
  | SelfClosingTagTok (name : string)
  | CommentTok (text : string)
  | DoctypeTok (text : string).

(** A tokenizer over a source is the finite sequence of tokens it yields
    and the error it ends with; once the tokens are used up, [Next]
    returns [ErrorToken] and [Err] returns that error. *)
Record Tokenizer : Type := mkTokenizer {
  tokens : list Token;
  Err : error
}.

(** [None] is the position after the last token. *)
Definition typeOf (cur : option Token) : TokenType :=
  match cur with
  | None => ErrorToken
  | Some (TextTok _) => TextToken
  | Some (StartTagTok _) => StartTagToken
  | Some (EndTagTok _) => EndTagToken
  | Some (SelfClosingTagTok _) => SelfClosingTagToken
  | Some (CommentTok _) => CommentToken
  | Some (DoctypeTok _) => DoctypeToken
  end.

Definition TagName (cur : option Token) : string :=
  match cur with
  | Some (StartTagTok n) | Some (EndTagTok n) | Some (SelfClosingTagTok n) => n
  | _ => ""
  end.

Definition TextOf (cur : option Token) : string :=
  match cur with
  | Some (TextTok t) | Some (CommentTok t) | Some (DoctypeTok t) => t
  | _ => ""
  end.

(** ** The HtmlTexter interface (lines 63-75)

    A texter is a mutable object; its methods are state transformers on
    the type [T] of its states. *)

Class HtmlTexter (T : Type) : Type := {
  StartTag : string -> T -> T;
  SelfTag : string -> T -> T;
  EndTag : string -> T -> T;
  Text : string -> string -> T -> T;
  String_ : T -> string * T
}.

(** ** simpleParse (lines 154-220) *)

Section Driver.
Context {T : Type} `{HtmlTexter T}.

(** The local variables of the loop, and the texter behind the
    interface value ([None] is a [nil] interface). *)
Record State : Type := mkState {
  tagStack : stack.Stack;
  untagged : bool;
  texter : option T
}.

Inductive outcome : Type :=
  | Continue (st : State)
  | Return (err : option error) (st : State)
  | Panic.

Definition call (f : T -> T) (st : State) : State :=
  mkState (tagStack st) (untagged st) (f <$> texter st).

(** One turn of the [for] loop. *)
Definition body (mustTag : bool) (z : Tokenizer) (cur : option Token)
    (st : State) : outcome :=
  let tokenType := typeOf cur in
  let tag := TagName cur in
  let tokenType :=
    if bool_decide (tokenType = StartTagToken) && index_bool voidElements tag
    then SelfClosingTagToken else tokenType in
  match tokenType with
  | ErrorToken =>
      let err := Err z in
      if bool_decide (err = io_EOF) then
        if negb (stack.Len (tagStack st) =? 0) then
          let '(v, rest) := stack.Pop (tagStack st) in
          match assert_string v with
          | Some popped =>
              Return (Some (UnterminatedTagError popped))
                     (mkState rest (untagged st) (texter st))
          | None => Panic
          end
        else if untagged st && mustTag then
          Return (Some NoTagsError) st
        else Return None st
      else Return (Some err) st
  | StartTagToken =>
      let st := mkState (stack.Push (any_string tag) (tagStack st)) false
                        (texter st) in
      Continue (call (StartTag tag) st)
  | TextToken =>
      match texter st with
      | Some _ =>
          if stack.Len (tagStack st) >? 0 then
            match assert_string (stack.Peek (tagStack st)) with
            | Some enclosing => Continue (call (Text enclosing (TextOf cur)) st)
            | None => Panic
            end
          else Continue (call (Text "" (TextOf cur)) st)
      | None => Continue st
      end
  | SelfClosingTagToken | DoctypeToken | CommentToken =>
      let st := mkState (tagStack st) false (texter st) in
      Continue (call (SelfTag tag) st)
  | EndTagToken =>
      if stack.Len (tagStack st) =? 0 then
        Return (Some (StrayEndTagError tag)) st
      else
        let '(v, rest) := stack.Pop (tagStack st) in
        match assert_string v with
        | Some popped =>
            let st := mkState rest (untagged st) (texter st) in
            if negb (String.eqb popped tag) then
              Return (Some (TagMismatchError popped tag)) st
            else Continue (call (EndTag tag) st)
        | None => Panic
        end
  end.

(** The loop: one turn per token, then the turn that sees
    [ErrorToken].  [Continue] as a result of the whole loop would be a
    loop that never returns; [run_returns] shows there is none. *)
Fixpoint run (mustTag : bool) (z : Tokenizer) (toks : list Token)
    (st : State) : outcome :=
  match toks with
  | [] => body mustTag z None st
  | t :: rest =>
      match body mustTag z (Some t) st with
      | Continue st' => run mustTag z rest st'
      | r => r
      end
  end.

(** [z] is the tokenizer that the first line of the Go function builds
    from [src]. *)
Definition simpleParse (z : Tokenizer) (mustTag : bool)
    (texter : option T) : outcome :=
  run mustTag z (tokens z) (mkState stack.New true texter).

End Driver.

Arguments State : clear implicits.
Arguments outcome : clear implicits.

(** ** cleanWhiteSpace (lines 60, 149-152)

    [whiteSpaceRE] is the regular expression [[\s\p{Zs}]+].  The regexp
    package reads its input as UTF-8: the class holds the runes of [\s]
    (tab, line feed, form feed, carriage return, space) and of the
    Unicode category Zs, listed here by their UTF-8 encodings. *)

Definition bytes (l : list N) : string :=
  String.string_of_list_ascii (byte_of <$> l).

Definition whiteSpaceRunes : list string :=
  bytes <$>
    [ [0x09]; [0x0A]; [0x0C]; [0x0D]; [0x20];          (* \s *)
      [0xC2; 0xA0];                                     (* U+00A0 *)
      [0xE1; 0x9A; 0x80];                               (* U+1680 *)
      [0xE2; 0x80; 0x80]; [0xE2; 0x80; 0x81]; [0xE2; 0x80; 0x82];
      [0xE2; 0x80; 0x83]; [0xE2; 0x80; 0x84]; [0xE2; 0x80; 0x85];
      [0xE2; 0x80; 0x86]; [0xE2; 0x80; 0x87]; [0xE2; 0x80; 0x88];
      [0xE2; 0x80; 0x89]; [0xE2; 0x80; 0x8A];           (* U+2000..U+200A *)
      [0xE2; 0x80; 0xAF];                               (* U+202F *)
      [0xE2; 0x81; 0x9F];                               (* U+205F *)
      [0xE3; 0x80; 0x80] ]%N.                           (* U+3000 *)

(** [strip_prefix p s] is [Some r] when [s = p ++ r]. *)
Fixpoint strip_prefix (p s : string) : option string :=
  match p, s with
  | EmptyString, _ => Some s
  | String x p', String y s' =>
      if Ascii.eqb x y then strip_prefix p' s' else None
  | String _ _, EmptyString => None
  end.

(** One rune of the class at the head of [s]: what is left after it. *)
Definition wsStrip (s : string) : option string :=
  foldr (fun e acc => match strip_prefix e s with
                      | Some r => Some r
                      | None => acc
                      end) None whiteSpaceRunes.

(** What is left of [s] after the longest run of runes of the class at
    its head ([+] is greedy). *)
Fixpoint skipWhiteSpace (fuel : nat) (s : string) : string :=
  match fuel with
  | O => s
  | S f => match wsStrip s with
           | Some r => skipWhiteSpace f r
           | None => s
           end
  end.

(** [re.ReplaceAllString(src, repl)] for [re = whiteSpaceRE]: the matches
    are found from left to right, each is replaced by [repl] and the bytes
    between matches are copied. *)
Fixpoint replaceAll (fuel : nat) (src repl : string) : string :=
  match fuel with
  | O => ""
  | S f =>
      match wsStrip src with
      | Some r => repl +:+ replaceAll f (skipWhiteSpace f r) repl
      | None => match src with
                | EmptyString => ""
                | String a r => String a (replaceAll f r repl)
                end
      end
  end.

Definition whiteSpaceRE_ReplaceAllString (src repl : string) : string :=
  replaceAll (S (String.length src)) src repl.

Definition cleanWhiteSpace (src : string) : string :=
  whiteSpaceRE_ReplaceAllString src " ".

(** ** strings.Trim, for a cutset of ASCII bytes *)

Fixpoint contains (cutset : string) (a : ascii) : bool :=
  match cutset with
  | EmptyString => false
  | String c rest => Ascii.eqb c a || contains rest a
  end.

Fixpoint trimLeftASCII (s cutset : string) : string :=
  match s with
  | EmptyString => ""
  | String a r => if contains cutset a then trimLeftASCII r cutset else s
  end.

Fixpoint trimRightASCII (s cutset : string) : string :=
  match s with
  | EmptyString => ""
  | String a r =>
      match trimRightASCII r cutset with
      | EmptyString => if contains cutset a then "" else String a ""
      | r' => String a r'
      end
  end.

Definition Trim (s cutset : string) : string :=
  trimLeftASCII (trimRightASCII s cutset) cutset.

(** ** simpleTexter (lines 122-147) *)

Record simpleTexter : Type := mkSimpleTexter {
  sb : string;
  lbr : string
}.

Definition WriteString (s : string) (h : simpleTexter) : simpleTexter :=
  mkSimpleTexter (sb h +:+ s) (lbr h).

Definition simpleTexter_StartTag (tag : string) (h : simpleTexter) : simpleTexter :=
  WriteString (Repeat (lbr h) (index_int openingBreakers tag)) h.

Definition simpleTexter_SelfTag (tag : string) (h : simpleTexter) : simpleTexter :=
  WriteString (Repeat (lbr h) (index_int selfBreakers tag)) h.

Definition simpleTexter_EndTag (tag : string) (h : simpleTexter) : simpleTexter :=
  WriteString (Repeat (lbr h) (index_int closingBreakers tag)) h.

Definition simpleTexter_Text (enclosing input : string) (h : simpleTexter)
    : simpleTexter :=
  if negb (String.eqb enclosing "title")
  then WriteString (cleanWhiteSpace input) h
  else h.

Definition cutset_String : string := String SP (String CR (String LF "")).

Definition simpleTexter_String (h : simpleTexter) : string * simpleTexter :=
  (Trim (sb h) cutset_String, h).

#[global] Instance simpleTexter_HtmlTexter : HtmlTexter simpleTexter := {
  StartTag := simpleTexter_StartTag;
  SelfTag := simpleTexter_SelfTag;
  EndTag := simpleTexter_EndTag;
  Text := simpleTexter_Text;
  String_ := simpleTexter_String
}.

(** A [nil] interface value has no dynamic type: no method is ever run
    on it. *)
#[global] Instance nil_HtmlTexter : HtmlTexter Empty_set := {
  StartTag := fun _ h => h;
  SelfTag := fun _ h => h;
  EndTag := fun _ h => h;
  Text := fun _ _ h => h;
  String_ := fun h => ("", h)
}.

(** ** The entry points (lines 77-120) *)

(** How a call ends: it returns, it panics, or it never returns. *)
Inductive go (A : Type) : Type :=
  | Returns (a : A)
  | Panics
  | Loops.
Arguments Returns {A} a.
Arguments Panics {A}.
Arguments Loops {A}.

Section EntryPoints.
(** [html.NewTokenizer(strings.NewReader(src))] *)
Variable NewTokenizer : string -> Tokenizer.

Definition HTML2Text (src : string) (winLbr : list bool) : go string :=
  let lbr := String LF "" in
  let lbr := match winLbr with
             | true :: _ => String CR (String LF "")
             | _ => lbr
             end in
  let texter := mkSimpleTexter "" lbr in
  match simpleParse (NewTokenizer src) false (Some texter) with
  | Return None (mkState _ _ (Some h)) => Returns (fst (String_ h))
  | Return None (mkState _ _ None) => Panics
  | Return (Some _) _ => Returns ""
  | Panic => Panics
  | Continue _ => Loops
  end.

Definition Custom2Text {T : Type} `{HtmlTexter T} (src : string)
    (mustTag : bool) (texter : option T) : go (string * option error) :=
  match simpleParse (NewTokenizer src) false texter with
  | Return None (mkState _ _ (Some h)) => Returns (fst (String_ h), None)
  | Return None (mkState _ _ None) => Panics
  | Return (Some err) _ => Returns ("", Some err)
  | Panic => Panics
  | Continue _ => Loops
  end.

Definition IsPlainText (src : string) : go bool :=
  match simpleParse (T := Empty_set) (NewTokenizer src) true None with
  | Return err _ =>
      Returns match err with
              | Some e => String.eqb (Error e) "Contains no tags"
              | None => false
              end
  | Panic => Panics
  | Continue _ => Loops
  end.

End EntryPoints.

(** ** The tokenizer of golang.org/x/net/html

    The tokenizer is a library outside the package.  The properties of
    [simpleParse] and of the entry points are proved for every tokenizer;
    the examples on concrete sources use [html_NewTokenizer], a model of
    the library on the markup the examples are written in: text without
    ['&'] and without carriage returns, start tags [<name>], end tags
    [</name>], self-closing tags [<name/>], comments [<!--...-->] and
    [<!DOCTYPE ...>].  Tag names are put in lower case, attributes are
    skipped, and a tag that the end of the input cuts short ends the
    stream.  The raw-text mode that the library enters after tags such as
    [<script>] or [<title>] is not modelled. *)

Module html.

Definition isLetter (a : ascii) : bool :=
  let c := code a in
  ((0x61 <=? c) && (c <=? 0x7A) || (0x41 <=? c) && (c <=? 0x5A))%N.

Definition lower (a : ascii) : ascii :=
  let c := code a in
  if ((0x41 <=? c) && (c <=? 0x5A))%N then byte_of (c + 0x20) else a.

Definition isSpace (a : ascii) : bool :=
  let c := code a in
  ((c =? 0x20) || (c =? 0x0A) || (c =? 0x0D) || (c =? 0x09) || (c =? 0x0C))%N.

(** The bytes before and after the first occurrence of [c]. *)
Fixpoint cut (c : ascii) (s : string) : option (string * string) :=
  match s with
  | EmptyString => None
  | String a r =>
      if Ascii.eqb a c then Some ("", r)
      else match cut c r with
           | Some (u, v) => Some (String a u, v)
           | None => None
           end
  end.

(** The bytes before and after the first occurrence of ["-->"]. *)
Fixpoint cutComment (s : string) : option (string * string) :=
  match s with
  | EmptyString => None
  | String a r =>
      match strip_prefix "-->" s with
      | Some v => Some ("", v)
      | None => match cutComment r with
                | Some (u, v) => Some (String a u, v)
                | None => None
                end
      end
  end.

(** The tag name at the head of the inside of a tag, in lower case. *)
Fixpoint readTagName (s : string) : string :=
  match s with
  | EmptyString => ""
  | String a r =>
      if isSpace a || Ascii.eqb a "/" || Ascii.eqb a ">" then ""
      else String (lower a) (readTagName r)
  end.

Fixpoint endsWithSlash (s : string) : bool :=
  match s with
  | EmptyString => false
  | String a EmptyString => Ascii.eqb a "/"
  | String _ r => endsWithSlash r
  end.

Fixpoint map_lower (s : string) : string :=
  match s with
  | EmptyString => ""
  | String a r => String (lower a) (map_lower r)
  end.

(** Does markup start at the head of [s]? *)
Definition startsMarkup (s : string) : bool :=
  match s with
  | String a (String b _) =>
      Ascii.eqb a "<" &&
      (isLetter b || Ascii.eqb b "/" || Ascii.eqb b "!" || Ascii.eqb b "?")
  | _ => false
  end.

(** The text up to the next markup, and what follows it. *)
Fixpoint readText (s : string) : string * string :=
  match s with
  | EmptyString => ("", "")
  | String a r =>
      if startsMarkup s then ("", s)
      else let '(u, v) := readText r in (String a u, v)
  end.

(** The token at the head of [s], where markup starts, and what
    follows it; [None] when the input ends inside the markup. *)
Definition readMarkup (s : string) : option (Token * string) :=
  match s with
  | String _ (String b r) =>
      if isLetter b then
        '(inside, rest) ← cut ">" (String b r);
        let name := readTagName inside in
        Some (if endsWithSlash inside then SelfClosingTagTok name
              else StartTagTok name, rest)
      else if Ascii.eqb b "/" then
        match r with
        | String c _ =>
            '(inside, rest) ← cut ">" r;
            if isLetter c then Some (EndTagTok (readTagName inside), rest)
            else Some (CommentTok inside, rest)
        | EmptyString => None
        end
      else
        match strip_prefix "!--" (String b r) with
        | Some body =>
            '(text, rest) ← cutComment body;
            Some (CommentTok text, rest)
        | None =>
            '(inside, rest) ← cut ">" r;
            match strip_prefix "doctype" (map_lower inside) with
            | Some _ => Some (DoctypeTok (String.substring 7 (String.length inside - 7) inside), rest)
            | None => Some (CommentTok inside, rest)
            end
        end
  | _ => None
  end.

Fixpoint tokenize (fuel : nat) (s : string) : list Token :=
  match fuel with
  | O => []
  | S f =>
      match s with
      | EmptyString => []
      | _ =>
          if startsMarkup s then
            match readMarkup s with
            | Some (tok, rest) => tok :: tokenize f rest
            | None => []
            end
          else
            match s with
            | String a r =>
                let '(u, v) := readText r in
                TextTok (String a u) :: tokenize f v
            | EmptyString => []
            end
      end
  end.

(** [html.NewTokenizer(strings.NewReader(src))]: a reader over a string
    ends with [io.EOF]. *)
Definition NewTokenizer (src : string) : Tokenizer :=
  mkTokenizer (tokenize (S (String.length src)) src) io_EOF.

End html.

(** ** The variant of the package with a package-level line break

    The second source file differs in one point: the line break is the
    package variable [lbr], set by [SetUnixLbr] and read by the methods
    of [simpleTexter], whose only field is the buffer; [HTML2Text] has no
    optional argument.  [simpleParse] and [Custom2Text] are the same, and
    there is no [IsPlainText]. *)

Module GlobalLbr.

Definition WIN_LBR : string := String CR (String LF "").
Definition UNIX_LBR : string := String LF "".

(** The value of [lbr] when the package is loaded. *)
Definition lbr_init : string := WIN_LBR.

(** [SetUnixLbr] as the new value of [lbr]. *)
Definition SetUnixLbr (b : bool) : string :=
  if b then UNIX_LBR else WIN_LBR.

Record simpleTexter : Type := mkSimpleTexter { sb : string }.

Section Methods.
(** The value of the package variable during the call. *)
Variable lbr : string.

Definition WriteString (s : string) (h : simpleTexter) : simpleTexter :=
  mkSimpleTexter (sb h +:+ s).

Definition StartTag (tag : string) (h : simpleTexter) : simpleTexter :=
  WriteString (Repeat lbr (index_int openingBreakers tag)) h.

Definition SelfTag (tag : string) (h : simpleTexter) : simpleTexter :=
  WriteString (Repeat lbr (index_int selfBreakers tag)) h.

Definition EndTag (tag : string) (h : simpleTexter) : simpleTexter :=
  WriteString (Repeat lbr (index_int closingBreakers tag)) h.

Definition Text (enclosing input : string) (h : simpleTexter)
    : simpleTexter :=
  if negb (String.eqb enclosing "title")
  then WriteString (cleanWhiteSpace input) h
  else h.

Definition String_ (h : simpleTexter) : string * simpleTexter :=
  (Trim (sb h) cutset_String, h).

Definition texter_methods : HtmlTexter simpleTexter :=
  Build_HtmlTexter simpleTexter StartTag SelfTag EndTag Text String_.

Variable NewTokenizer : string -> Tokenizer.

Definition HTML2Text (src : string) : go string :=
  let texter := mkSimpleTexter "" in
  match simpleParse (H := texter_methods) (NewTokenizer src) false
                    (Some texter) with
  | Return None (mkState _ _ (Some h)) => Returns (fst (String_ h))
  | Return None (mkState _ _ None) => Panics
  | Return (Some _) _ => Returns ""
  | Panic => Panics
  | Continue _ => Loops
  end.
End Methods.

End GlobalLbr.

(** * Vocabulary of the properties *)

(** The stack after pushing the tag names [names], last pushed first. *)
Definition stackOf (names : list string) : stack.Stack :=
  any_string <$> names.

(** Reading a table built from a list of pairs at any key. *)
Ltac table_cases k :=
  repeat match goal with
         | |- context [ <[?i := _]> _ !! k ] =>
             rewrite (lookup_insert _ i k); destruct (decide (i = k)); subst
         end;
  rewrite ?lookup_empty; cbn.

Definition voidNames : list string :=
  [ "area"; "base"; "br"; "col"; "command"; "embed"; "hr"; "img"; "input";
    "keygen"; "link"; "meta"; "param"; "source"; "track"; "wbr" ].

Ltac not_in_list :=
  let Hin := fresh in
  intros Hin; cbn [fst] in *;
  repeat (apply elem_of_cons in Hin as [->|Hin]; [congruence|]);
  by apply elem_of_nil in Hin.

Definition headings : list string := [ "h1"; "h2"; "h3"; "h4"; "h5"; "h6" ].

Section TrimVocabulary.
Variable cutset : string.

Fixpoint allIn (s : string) : bool :=
  match s with
  | EmptyString => true
  | String a r => contains cutset a && allIn r
  end.

Fixpoint lastByte (s : string) : option ascii :=
  match s with
  | EmptyString => None
  | String a EmptyString => Some a
  | String _ r => lastByte r
  end.

Definition firstByte (s : string) : option ascii :=
  match s with
  | EmptyString => None
  | String a _ => Some a
  end.

(** No byte of the cutset at either end. *)
Definition outside (b : option ascii) : Prop :=
  match b with
  | Some a => contains cutset a = false
  | None => True
  end.

Definition trimmed (s : string) : Prop :=
  outside (firstByte s) /\ outside (lastByte s).

End TrimVocabulary.

(** The input after the longest run of class runes at its head. *)
Definition skipRun (s : string) : string :=
  skipWhiteSpace (String.length s) s.

(** UTF-8: the first byte of an encoding is not a continuation byte
    (10xxxxxx) and the bytes after it are, so no rune of the class starts
    inside the encoding of another rune. *)

Definition isCont (a : ascii) : bool :=
  ((0x80 <=? code a) && (code a <=? 0xBF))%N.

Fixpoint allCont (s : string) : bool :=
  match s with
  | EmptyString => true
  | String a r => isCont a && allCont r
  end.

Definition headLead (s : string) : Prop :=
  match s with
  | EmptyString => True
  | String a _ => isCont a = false
  end.

Definition wellEncoded (e : string) : Prop :=
  match e with
  | EmptyString => False
  | String a tl => isCont a = false /\ allCont tl = true
  end.

(** No rune of the class starts anywhere in [t]. *)
Fixpoint wsFree (t : string) : bool :=
  match t with
  | EmptyString => true
  | String a r => match wsStrip t with
                  | None => wsFree r
                  | Some _ => false
                  end
  end.

(** The texter after the text handler has run on each text, outside
    any tag. *)
Definition feedTexts {T : Type} `{HtmlTexter T} (texts : list string)
    (t : option T) : option T :=
  foldl (fun acc x => Text "" x <$> acc) t texts.

Definition LFs : string := String LF "".
Definition CRLFs : string := String CR (String LF "").

(** ** Vocabulary of the further properties *)

(** The turns of the loop on the tokens [toks], without the turn that
    sees [ErrorToken]: [Continue] is the state before that turn. *)
Fixpoint steps {T : Type} `{HtmlTexter T} (mustTag : bool) (z : Tokenizer)
    (toks : list Token) (st : State T) : outcome T :=
  match toks with
  | [] => Continue st
  | tok :: rest =>
      match body mustTag z (Some tok) st with
      | Continue st' => steps mustTag z rest st'
      | r => r
      end
  end.

(** The innermost open tag, [""] outside any tag. *)
Definition enclosingOf (names : list string) : string :=
  match names with
  | n :: _ => n
  | [] => ""
  end.

Definition isText (tok : Token) : bool :=
  match tok with
  | TextTok _ => true
  | _ => false
  end.

(** Tokens that neither open nor close an element. *)
Definition isLeaf (tok : Token) : bool :=
  match tok with
  | TextTok _ | SelfClosingTagTok _ | CommentTok _ | DoctypeTok _ => true
  | StartTagTok n => index_bool voidElements n
  | EndTagTok _ => false
  end.

(** Well-nested token sequences: every start tag that is not void is
    closed by an end tag of the same name, in nesting order. *)
Inductive nested : list Token -> Prop :=
  | nested_nil : nested []
  | nested_leaf tok toks :
      isLeaf tok = true -> nested toks -> nested (tok :: toks)
  | nested_element n inner rest :
      index_bool voidElements n = false -> nested inner -> nested rest ->
      nested (StartTagTok n :: inner ++ EndTagTok n :: rest).

(** [toks] closes the open tags [names], innermost first, and is
    well nested otherwise. *)
Fixpoint closes (names : list string) (toks : list Token) : Prop :=
  match names with
  | [] => nested toks
  | n :: ns =>
      exists w rest, toks = w ++ EndTagTok n :: rest /\ nested w /\ closes ns rest
  end.

(** The errors of the turn on an end tag. *)
Definition isEndTagError (e : error) : Prop :=
  (exists n, e = StrayEndTagError n) \/
  (exists p n, p <> n /\ e = TagMismatchError p n).

(** The errors [simpleParse] builds itself. *)
Definition isNestingError (e : error) : Prop :=
  (exists n, e = UnterminatedTagError n) \/
  (exists n, e = StrayEndTagError n) \/
  (exists p n, p <> n /\ e = TagMismatchError p n).

(** Two runs of the loop side by side, on two texters that a relation
    [R] ties together: the same stack of tag names, texters in relation
    and, unless [loose], the same flag [untagged]. *)
Definition simState {T1 T2 : Type} (R : option T1 -> option T2 -> Prop)
    (loose : bool) (st1 : State T1) (st2 : State T2) : Prop :=
  exists names,
    tagStack st1 = stackOf names /\ tagStack st2 = stackOf names /\
    (loose = true \/ untagged st1 = untagged st2) /\
    R (texter st1) (texter st2).

Definition simOutcome {T1 T2 : Type} (R : option T1 -> option T2 -> Prop)
    (loose : bool) (o1 : outcome T1) (o2 : outcome T2) : Prop :=
  match o1, o2 with
  | Continue st1, Continue st2 => simState R loose st1 st2
  | Return e1 st1, Return e2 st2 => e1 = e2 /\ simState R loose st1 st2
  | _, _ => False
  end.

(** The buffers of the builders of the two source files. *)
Definition sameBuffer (lbr0 : string) (o1 : option simpleTexter)
    (o2 : option GlobalLbr.simpleTexter) : Prop :=
  match o1, o2 with
  | Some h1, Some h2 => sb h1 = GlobalLbr.sb h2 /\ lbr h1 = lbr0
  | _, _ => False
  end.

(** Tokens on which the default builder writes nothing: comments,
    doctypes, and self-closing or void tags other than [br]. *)
Definition isSilent (tok : Token) : bool :=
  match tok with
  | CommentTok _ | DoctypeTok _ => true
  | SelfClosingTagTok n => negb (String.eqb n "br")
  | StartTagTok n => index_bool voidElements n && negb (String.eqb n "br")
  | _ => false
  end.

(** Every white-space rune of [s] is one ASCII space that no white-space
    rune follows. *)
Fixpoint wsNormal (s : string) : bool :=
  match s with
  | EmptyString => true
  | String a r =>
      match wsStrip s with
      | None => wsNormal r
      | Some _ =>
          Ascii.eqb a SP &&
          match wsStrip r with None => true | Some _ => false end &&
          wsNormal r
      end
  end.

(** The texts of the tokens, cleaned and put end to end. *)
Definition cleanTexts (toks : list Token) : string :=
  foldr (fun tok acc => cleanWhiteSpace (TextOf (Some tok)) +:+ acc) "" toks.

(** The builder [h'] holds what [h] held and more, with the same line
    break. *)
Definition extends (h h' : simpleTexter) : Prop :=
  lbr h' = lbr h /\ exists x, sb h' = sb h +:+ x.

(** No start tag [title] among the tokens. *)
Definition noTitle (toks : list Token) : bool :=
  forallb (fun tok => match tok with
                      | StartTagTok n => negb (String.eqb n "title")
                      | _ => true
                      end) toks.

(** [s] with a carriage return put before every line feed. *)
Fixpoint crlf (s : string) : string :=
  match s with
  | EmptyString => ""
  | String a r =>
      if Ascii.eqb a LF then String CR (String LF (crlf r))
      else String a (crlf r)
  end.

(** The builder of a run with Windows line breaks beside the builder of
    the run with Unix line breaks on the same tokens. *)
Definition crlfBuffer (o1 o2 : option simpleTexter) : Prop :=
  match o1, o2 with
  | Some h1, Some h2 =>
      lbr h1 = LFs /\ lbr h2 = CRLFs /\ sb h2 = crlf (sb h1)
  | _, _ => False
  end.

(** * Properties *)

(** ** The tag stack holds strings only *)

Section DriverFacts.
Context {T : Type} `{HtmlTexter T}.
Implicit Types (st : State T) (names : list string) (t : option T).

Lemma Len_cons_pos (v : any) (s : stack.Stack) :
  (stack.Len (v :: s) >? 0) = true /\ (stack.Len (v :: s) =? 0) = false.
Proof.
  unfold stack.Len; cbn [length].
  split; [apply Z.gtb_lt | apply Z.eqb_neq]; lia.
Qed.

(** One turn from a stack of strings: it does not panic, and the stack
    it leaves is a stack of strings. *)
Lemma body_stackOf mustTag z cur names u t :
  match body mustTag z cur (mkState (stackOf names) u t) with
  | Continue st' | Return _ st' => exists names', tagStack st' = stackOf names'
  | Panic => False
  end.
Proof.
  unfold body; cbn [tagStack untagged texter].
  destruct (bool_decide _ && _).
  { cbn. by exists names. }
  destruct cur as [[x|x|x|x|x|x]|]; cbn [typeOf TagName TextOf].
  - destruct t as [h|]; [|by exists names].
    destruct names as [|n names]; [by exists []|].
    cbn [stackOf fmap list_fmap].
    rewrite (proj1 (Len_cons_pos _ _)). cbn. by exists (n :: names).
  - by exists (x :: names).
  - destruct names as [|n names]; [by exists []|].
    cbn [stackOf fmap list_fmap].
    rewrite (proj2 (Len_cons_pos _ _)). cbn.
    destruct (negb _); by exists names.
  - by exists names.
  - by exists names.
  - by exists names.
  - destruct (bool_decide _); [|by exists names].
    destruct names as [|n names]; [cbn; destruct (u && mustTag); by exists []|].
    cbn [stackOf fmap list_fmap].
    rewrite (proj2 (Len_cons_pos _ _)). cbn. by exists names.
Qed.

Lemma body_None_not_Continue mustTag z st st' :
  body mustTag z None st <> Continue st'.
Proof.
  unfold body; cbn [typeOf TagName].
  rewrite bool_decide_eq_false_2 by done. cbn [andb].
  repeat case_match; congruence.
Qed.

(** The loop returns: it neither panics nor runs for ever. *)
Lemma run_returns mustTag z toks names u t :
  exists err st', run mustTag z toks (mkState (stackOf names) u t) = Return err st'.
Proof.
  revert names u t. induction toks as [|tok toks IH]; intros names u t; cbn [run].
  - pose proof (body_stackOf mustTag z None names u t) as Hb.
    destruct (body _ _ _ _) as [st'|err st'|] eqn:E; [|by eauto|done].
    by apply body_None_not_Continue in E.
  - pose proof (body_stackOf mustTag z (Some tok) names u t) as Hb.
    destruct (body _ _ _ _) as [st'|err st'|] eqn:E; [|by eauto|done].
    destruct Hb as [names' Hn]. destruct st' as [s' u' t']; cbn in Hn; subst s'.
    apply IH.
Qed.

Lemma simpleParse_returns z mustTag t :
  exists err st, simpleParse z mustTag t = Return err st.
Proof. apply (run_returns mustTag z (tokens z) []). Qed.

(** The texter stays [nil] or stays an object through the parse. *)
Lemma body_texter mustTag z cur st st' r :
  body mustTag z cur st = r ->
  (r = Continue st' \/ exists err, r = Return err st') ->
  is_Some (texter st') <-> is_Some (texter st).
Proof.
  intros <-. unfold body.
  repeat case_match; intros [E|[err E]]; try discriminate;
    inversion E; subst; cbn; rewrite ?fmap_is_Some; try done;
    by match goal with Hn : texter _ = None |- _ => rewrite Hn end.
Qed.

Lemma run_texter mustTag z toks st err st' :
  run mustTag z toks st = Return err st' ->
  is_Some (texter st') <-> is_Some (texter st).
Proof.
  revert st. induction toks as [|tok toks IH]; intros st; cbn [run].
  - intros E. eapply body_texter; eauto.
  - destruct (body _ _ _ _) as [s1|e1 s1|] eqn:E; [| |done].
    + intros Hr. rewrite (IH _ Hr). eapply body_texter; eauto.
    + intros [= <- <-]. eapply body_texter; eauto.
Qed.

End DriverFacts.

(** ** Table lookups *)

Lemma voidElements_spec (tag : string) :
  index_bool voidElements tag = bool_decide (tag ∈ voidNames).
Proof.
  unfold index_bool, voidElements, voidNames; cbn [list_to_map foldr uncurry].
  symmetry.
  table_cases tag; try (vm_compute; reflexivity).
  apply bool_decide_eq_false_2.
  intros Hin. cbn [fst] in *.
  repeat (apply elem_of_cons in Hin as [->|Hin]; [congruence|]).
  by apply elem_of_nil in Hin.
Qed.

Section DispatchFacts.
Context {T : Type} `{HtmlTexter T}.
Implicit Types (st : State T) (names : list string) (t : option T).

Lemma body_EndTag mustTag z tag names u t :
  body mustTag z (Some (EndTagTok tag)) (mkState (stackOf names) u t) =
  match names with
  | [] => Return (Some (StrayEndTagError tag)) (mkState (stackOf []) u t)
  | popped :: rest =>
      if decide (popped = tag)
      then Continue (mkState (stackOf rest) u (EndTag tag <$> t))
      else Return (Some (TagMismatchError popped tag))
                  (mkState (stackOf rest) u t)
  end.
Proof.
  unfold body; cbn [typeOf TagName tagStack untagged texter].
  rewrite bool_decide_eq_false_2 by done. cbn [andb].
  destruct names as [|popped rest]; [done|].
  cbn [stackOf fmap list_fmap].
  rewrite (proj2 (Len_cons_pos _ _)). cbn.
  destruct (decide (popped = tag)) as [->|Hne].
  - by rewrite String.eqb_refl.
  - apply String.eqb_neq in Hne. by rewrite Hne.
Qed.

Lemma body_ErrorToken mustTag z names u t :
  body mustTag z None (mkState (stackOf names) u t) =
  if decide (Err z = io_EOF) then
    match names with
    | top :: rest =>
        Return (Some (UnterminatedTagError top)) (mkState (stackOf rest) u t)
    | [] =>
        if u && mustTag
        then Return (Some NoTagsError) (mkState (stackOf []) u t)
        else Return None (mkState (stackOf []) u t)
    end
  else Return (Some (Err z)) (mkState (stackOf names) u t).
Proof.
  unfold body; cbn [typeOf TagName tagStack untagged texter].
  rewrite (bool_decide_eq_false_2 (ErrorToken = _)) by done. cbn [andb].
  destruct (decide (Err z = io_EOF)) as [E|E].
  - rewrite bool_decide_eq_true_2 by done.
    destruct names as [|top rest]; [done|].
    cbn [stackOf fmap list_fmap].
    by rewrite (proj2 (Len_cons_pos _ _)).
  - by rewrite bool_decide_eq_false_2.
Qed.

Lemma body_StartTag mustTag z tag st :
  body mustTag z (Some (StartTagTok tag)) st =
  if index_bool voidElements tag
  then Continue (mkState (tagStack st) false (SelfTag tag <$> texter st))
  else Continue (mkState (any_string tag :: tagStack st) false
                         (StartTag tag <$> texter st)).
Proof.
  unfold body; cbn [typeOf TagName].
  rewrite bool_decide_eq_true_2 by done. cbn [andb].
  by destruct (index_bool voidElements tag).
Qed.

Lemma body_SelfClosingTag mustTag z tag st :
  body mustTag z (Some (SelfClosingTagTok tag)) st =
  Continue (mkState (tagStack st) false (SelfTag tag <$> texter st)).
Proof.
  unfold body; cbn [typeOf TagName].
  by rewrite bool_decide_eq_false_2.
Qed.

(** A parse that succeeds ends with an empty stack. *)
Lemma run_success_empty mustTag z toks st st' :
  run mustTag z toks st = Return None st' -> tagStack st' = [].
Proof.
  revert st. induction toks as [|tok toks IH]; intros st; cbn [run].
  - unfold body; cbn [typeOf TagName].
    rewrite (bool_decide_eq_false_2 (ErrorToken = _)) by done. cbn [andb].
    repeat case_match; try discriminate.
    intros [= <-].
    match goal with Hl : negb _ = false |- _ =>
      apply negb_false_iff, Z.eqb_eq in Hl; unfold stack.Len in Hl end.
    destruct (tagStack st); [done|cbn in *; lia].
  - destruct (body _ _ _ _) as [s1|e1 s1|] eqn:E; [by apply IH| |done].
    intros [= -> ->]. revert E. unfold body.
    repeat case_match; try discriminate.
    by destruct tok.
Qed.

End DispatchFacts.

(** ** strings.Trim *)

Section TrimFacts.
Variable cutset : string.

Lemma trimLeft_first s : outside cutset (firstByte (trimLeftASCII s cutset)).
Proof.
  induction s as [|a r IH]; cbn; [done|].
  destruct (contains cutset a) eqn:E; [done|]. by cbn.
Qed.

Lemma trimRight_last s : outside cutset (lastByte (trimRightASCII s cutset)).
Proof.
  induction s as [|a r IH]; cbn [trimRightASCII]; [done|].
  destruct (trimRightASCII r cutset) as [|b r'] eqn:E.
  - destruct (contains cutset a) eqn:Ea; [done|]. by cbn.
  - exact IH.
Qed.

Lemma trimLeft_last s :
  trimLeftASCII s cutset = "" \/
  lastByte (trimLeftASCII s cutset) = lastByte s.
Proof.
  induction s as [|a r IH]; cbn [trimLeftASCII]; [by left|].
  destruct (contains cutset a); [|by right].
  destruct IH as [IH|IH]; [by left|].
  destruct r as [|b r']; [by left|]. right. by rewrite IH.
Qed.

Lemma Trim_trimmed s : trimmed cutset (Trim s cutset).
Proof.
  unfold Trim. split; [apply trimLeft_first|].
  destruct (trimLeft_last (trimRightASCII s cutset)) as [-> | ->]; [done|].
  apply trimRight_last.
Qed.

Lemma trimLeft_fixed s : outside cutset (firstByte s) -> trimLeftASCII s cutset = s.
Proof. destruct s as [|a r]; cbn; [done|]. by intros ->. Qed.

Lemma trimRight_cons a r :
  trimRightASCII (String a r) cutset =
  match trimRightASCII r cutset with
  | EmptyString => if contains cutset a then "" else String a ""
  | r' => String a r'
  end.
Proof. done. Qed.

Lemma trimRight_fixed s : outside cutset (lastByte s) -> trimRightASCII s cutset = s.
Proof.
  induction s as [|a r IH]; [done|].
  destruct r as [|b r'].
  - cbn. by intros ->.
  - intros Hl. rewrite trimRight_cons, IH by exact Hl. done.
Qed.

Lemma trimmed_fixed s : trimmed cutset s -> Trim s cutset = s.
Proof.
  intros [Hf Hl]. unfold Trim.
  rewrite trimRight_fixed by done. by apply trimLeft_fixed.
Qed.

Lemma Trim_idempotent s : Trim (Trim s cutset) cutset = Trim s cutset.
Proof. apply trimmed_fixed, Trim_trimmed. Qed.

(** What [Trim] removes lies in the cutset. *)
Lemma trimLeft_split s :
  exists l, s = l +:+ trimLeftASCII s cutset /\ allIn cutset l = true.
Proof.
  induction s as [|a r (l & E & Hl)]; [by exists ""|].
  cbn [trimLeftASCII]. destruct (contains cutset a) eqn:Ea.
  - exists (String a l). split; [|by cbn; rewrite Ea].
    change (String a l +:+ ?x) with (String a (l +:+ x)). by f_equal.
  - by exists "".
Qed.

Lemma trimRight_split s :
  exists r, s = trimRightASCII s cutset +:+ r /\ allIn cutset r = true.
Proof.
  induction s as [|a s (r & E & Hr)]; [by exists ""|].
  cbn [trimRightASCII].
  destruct (trimRightASCII s cutset) as [|b s'] eqn:Es.
  - change ("" +:+ r) with r in E. subst r.
    destruct (contains cutset a) eqn:Ea.
    + exists (String a s). split; [done|]. by cbn; rewrite Ea.
    + by exists s.
  - exists r. split; [|done].
    change (String a ?y +:+ ?x) with (String a (y +:+ x)). by f_equal.
Qed.

Lemma append_assoc (a b c : string) : (a +:+ b) +:+ c = a +:+ b +:+ c.
Proof.
  induction a as [|x a IH]; [done|].
  change (String x ((a +:+ b) +:+ c) = String x (a +:+ b +:+ c)).
  by f_equal.
Qed.

Lemma Trim_split s :
  exists l r, s = l +:+ Trim s cutset +:+ r /\
              allIn cutset l = true /\ allIn cutset r = true.
Proof.
  destruct (trimRight_split s) as (r & Er & Hr).
  destruct (trimLeft_split (trimRightASCII s cutset)) as (l & El & Hl).
  exists l, r. split; [|done].
  unfold Trim. by rewrite <- append_assoc, <- El.
Qed.

End TrimFacts.

(** ** cleanWhiteSpace *)

Lemma length_append (a b : string) :
  String.length (a +:+ b) = (String.length a + String.length b)%nat.
Proof.
  induction a as [|x a IH]; [done|].
  change (S (String.length (a +:+ b)) = S (String.length a + String.length b)).
  by f_equal.
Qed.

Lemma strip_prefix_Some (p s r : string) :
  strip_prefix p s = Some r -> s = p +:+ r.
Proof.
  revert s. induction p as [|x p IH]; intros s; cbn [strip_prefix].
  - by intros [= ->].
  - destruct s as [|y s]; [done|].
    destruct (Ascii.eqb x y) eqn:E; [|done].
    apply Ascii.eqb_eq in E as ->. intros Hs.
    change (String y s = String y (p +:+ r)). f_equal. by apply IH.
Qed.

Lemma strip_prefix_append (p r : string) : strip_prefix p (p +:+ r) = Some r.
Proof.
  induction p as [|x p IH]; [done|].
  change (strip_prefix (String x p) (String x (p +:+ r)) = Some r).
  cbn [strip_prefix]. by rewrite Ascii.eqb_refl.
Qed.

(** The first entry of a table that is a prefix of [s]. *)
Lemma firstMatch_Some (table : list string) (s r : string) :
  foldr (fun e acc => match strip_prefix e s with
                      | Some r => Some r
                      | None => acc
                      end) None table = Some r ->
  exists e, e ∈ table /\ strip_prefix e s = Some r.
Proof.
  induction table as [|e table IH]; cbn [foldr]; [done|].
  destruct (strip_prefix e s) as [r'|] eqn:E.
  - intros [= ->]. exists e. split; [left|done].
  - intros Hr. destruct (IH Hr) as (e' & Hin & He'). exists e'. split; [by right|done].
Qed.

Lemma firstMatch_None (table : list string) (s : string) :
  foldr (fun e acc => match strip_prefix e s with
                      | Some r => Some r
                      | None => acc
                      end) None table = None <->
  Forall (fun e => strip_prefix e s = None) table.
Proof.
  induction table as [|e table IH]; cbn [foldr].
  - split; [constructor|done].
  - rewrite Forall_cons. destruct (strip_prefix e s) as [r'|] eqn:E.
    + split; [done|]. by intros [? _].
    + rewrite IH. tauto.
Qed.

Lemma wsStrip_Some (s r : string) :
  wsStrip s = Some r -> exists e, e ∈ whiteSpaceRunes /\ s = e +:+ r.
Proof.
  intros Hs. destruct (firstMatch_Some _ _ _ Hs) as (e & Hin & He).
  exists e. split; [done|]. by apply strip_prefix_Some.
Qed.

(** The UTF-8 encodings of the class are prefix-free: an input that starts
    with one of them matches that one. *)
Lemma wsStrip_rune :
  Forall (fun e => forall r, wsStrip (e +:+ r) = Some r) whiteSpaceRunes.
Proof. repeat constructor. Qed.

Lemma wsStrip_append (e r : string) :
  e ∈ whiteSpaceRunes -> wsStrip (e +:+ r) = Some r.
Proof.
  intros Hin. pose proof wsStrip_rune as Hf.
  rewrite Forall_forall in Hf. by apply Hf.
Qed.

Lemma wsStrip_length (s r : string) :
  wsStrip s = Some r -> (String.length r < String.length s)%nat.
Proof.
  intros Hs. destruct (wsStrip_Some _ _ Hs) as (e & Hin & ->).
  rewrite length_append.
  assert (Forall (fun e => 0 < String.length e)%nat whiteSpaceRunes) as Hf
    by (repeat constructor; cbn; lia).
  rewrite Forall_forall in Hf. specialize (Hf e Hin). lia.
Qed.

(** Fuel: any amount above the length of the input gives the same
    result, so the functions below do not depend on it. *)

Lemma skipWhiteSpace_fuel (f f' : nat) (s : string) :
  (String.length s <= f)%nat -> (String.length s <= f')%nat ->
  skipWhiteSpace f s = skipWhiteSpace f' s.
Proof.
  revert f' s. induction f as [|f IH]; intros f' s Hf Hf'.
  - destruct s; [|cbn in Hf; lia]. by destruct f'.
  - destruct f' as [|f'].
    + destruct s; [done|cbn in Hf'; lia].
    + cbn [skipWhiteSpace]. destruct (wsStrip s) as [r|] eqn:E; [|done].
      apply wsStrip_length in E. apply IH; lia.
Qed.

Lemma skipWhiteSpace_length (f : nat) (s : string) :
  (String.length (skipWhiteSpace f s) <= String.length s)%nat.
Proof.
  revert s. induction f as [|f IH]; intros s; cbn [skipWhiteSpace]; [done|].
  destruct (wsStrip s) as [r|] eqn:E; [|done].
  apply wsStrip_length in E. specialize (IH r). lia.
Qed.

Lemma replaceAll_fuel (f f' : nat) (s repl : string) :
  (String.length s < f)%nat -> (String.length s < f')%nat ->
  replaceAll f s repl = replaceAll f' s repl.
Proof.
  revert f' s. induction f as [|f IH]; intros f' s Hf Hf'; [lia|].
  destruct f' as [|f']; [lia|]. cbn [replaceAll].
  destruct (wsStrip s) as [r|] eqn:E.
  - pose proof (wsStrip_length _ _ E) as Hr.
    rewrite (skipWhiteSpace_fuel f f' r) by lia.
    pose proof (skipWhiteSpace_length f' r).
    f_equal. apply IH; lia.
  - destruct s as [|a r]; [done|]. cbn in Hf, Hf'.
    f_equal. apply IH; lia.
Qed.

Lemma skipRun_ws (s r : string) : wsStrip s = Some r -> skipRun s = skipRun r.
Proof.
  intros E. unfold skipRun. pose proof (wsStrip_length _ _ E) as Hr.
  destruct (String.length s) as [|n] eqn:En; [lia|].
  cbn [skipWhiteSpace]. rewrite E. apply skipWhiteSpace_fuel; lia.
Qed.

Lemma skipRun_plain (s : string) : wsStrip s = None -> skipRun s = s.
Proof.
  intros E. unfold skipRun. destruct (String.length s); [done|].
  cbn [skipWhiteSpace]. by rewrite E.
Qed.

Lemma replaceAll_S (f : nat) (src repl : string) :
  replaceAll (S f) src repl =
  match wsStrip src with
  | Some r => repl +:+ replaceAll f (skipWhiteSpace f r) repl
  | None => match src with
            | EmptyString => ""
            | String a r => String a (replaceAll f r repl)
            end
  end.
Proof. done. Qed.

Lemma cleanWhiteSpace_nil : cleanWhiteSpace "" = "".
Proof. done. Qed.

Lemma cleanWhiteSpace_ws (s r : string) :
  wsStrip s = Some r ->
  cleanWhiteSpace s = String SP (cleanWhiteSpace (skipRun r)).
Proof.
  intros E. unfold cleanWhiteSpace, whiteSpaceRE_ReplaceAllString.
  rewrite (replaceAll_S (String.length s) s), E.
  pose proof (wsStrip_length _ _ E) as Hr.
  change (" " +:+ ?x) with (String SP x). f_equal.
  rewrite (skipWhiteSpace_fuel _ (String.length r) r) by lia.
  fold (skipRun r).
  pose proof (skipWhiteSpace_length (String.length r) r). fold (skipRun r) in *.
  apply replaceAll_fuel; lia.
Qed.

Lemma cleanWhiteSpace_plain (a : ascii) (r : string) :
  wsStrip (String a r) = None ->
  cleanWhiteSpace (String a r) = String a (cleanWhiteSpace r).
Proof.
  intros E. unfold cleanWhiteSpace, whiteSpaceRE_ReplaceAllString.
  by rewrite (replaceAll_S _ (String a r)), E.
Qed.

Lemma whiteSpaceRunes_wellEncoded : Forall wellEncoded whiteSpaceRunes.
Proof. repeat constructor. Qed.

Lemma strip_tail_app (tl s x : string) :
  allCont tl = true -> headLead x ->
  strip_prefix tl s = None -> strip_prefix tl (s +:+ x) = None.
Proof.
  revert s. induction tl as [|d tl IH]; intros s Hc Hx; [done|].
  cbn [allCont] in Hc. apply andb_prop in Hc as [Hd Hc].
  destruct s as [|a s].
  - intros _. change ("" +:+ x) with x. destruct x as [|b x]; [done|].
    cbn [strip_prefix]. cbn [headLead] in Hx.
    destruct (Ascii.eqb d b) eqn:E; [|done].
    apply Ascii.eqb_eq in E as ->. congruence.
  - change (String a s +:+ x) with (String a (s +:+ x)). cbn [strip_prefix].
    destruct (Ascii.eqb d a); [|done]. by apply IH.
Qed.

Lemma wsStrip_plain_app (a : ascii) (t x : string) :
  headLead x ->
  wsStrip (String a t) = None -> wsStrip (String a t +:+ x) = None.
Proof.
  intros Hx. unfold wsStrip. rewrite !firstMatch_None.
  pose proof whiteSpaceRunes_wellEncoded as Hw. revert Hw.
  generalize whiteSpaceRunes as table. intros table Hw Hn.
  induction Hn as [|e table He Hn IH]; [constructor|].
  apply Forall_cons in Hw as [We Hw]. constructor; [|by apply IH].
  destruct e as [|c tl]; [done|]. destruct We as [_ Wt].
  change (String a t +:+ x) with (String a (t +:+ x)).
  cbn [strip_prefix] in *. destruct (Ascii.eqb c a); [|done].
  by apply strip_tail_app.
Qed.

Lemma cleanWhiteSpace_free_app (t x : string) :
  wsFree t = true -> headLead x ->
  cleanWhiteSpace (t +:+ x) = t +:+ cleanWhiteSpace x.
Proof.
  intros Ht Hx. induction t as [|a t IH]; [done|].
  cbn [wsFree] in Ht. destruct (wsStrip (String a t)) eqn:E; [done|].
  pose proof (wsStrip_plain_app a t x Hx E) as E'.
  change (String a t +:+ ?y) with (String a (t +:+ y)) in *.
  rewrite cleanWhiteSpace_plain by done. f_equal. by apply IH.
Qed.

Lemma append_nil_r (s : string) : s +:+ "" = s.
Proof.
  induction s as [|a s IH]; [done|].
  change (String a (s +:+ "") = String a s). by f_equal.
Qed.

(** Text without white space is copied. *)
Lemma cleanWhiteSpace_free (t : string) :
  wsFree t = true -> cleanWhiteSpace t = t.
Proof.
  intros Ht. pose proof (cleanWhiteSpace_free_app t "" Ht I) as E.
  by rewrite cleanWhiteSpace_nil, !append_nil_r in E.
Qed.

Lemma skipRun_app (w rest : string) :
  skipRun w = "" -> wsStrip rest = None -> skipRun (w +:+ rest) = rest.
Proof.
  intros Hw Hr. remember (String.length w) as n eqn:En.
  revert w En Hw. induction (lt_wf n) as [n _ IH]. intros w -> Hw.
  destruct (wsStrip w) as [r'|] eqn:E.
  - pose proof (wsStrip_length _ _ E) as Hl.
    destruct (wsStrip_Some _ _ E) as (e & Hin & ->).
    rewrite append_assoc.
    rewrite (skipRun_ws _ (r' +:+ rest)) by by apply wsStrip_append.
    apply (IH _ Hl r' eq_refl). by rewrite <- (skipRun_ws _ _ E).
  - rewrite skipRun_plain in Hw by done. subst w.
    by apply skipRun_plain.
Qed.

Lemma run_headLead (w rest : string) :
  w <> "" -> skipRun w = "" -> headLead (w +:+ rest).
Proof.
  intros Hne Hw. destruct (wsStrip w) as [r'|] eqn:E.
  - destruct (wsStrip_Some _ _ E) as (e & Hin & ->).
    pose proof whiteSpaceRunes_wellEncoded as Hf.
    rewrite Forall_forall in Hf. specialize (Hf e Hin).
    destruct e as [|c tl]; [done|]. by destruct Hf.
  - rewrite skipRun_plain in Hw by done. done.
Qed.

(** A maximal run of white space, between text without white space and
    a rest that does not start with white space, becomes one space. *)
Lemma cleanWhiteSpace_run (t w rest : string) :
  wsFree t = true -> w <> "" -> skipRun w = "" -> wsStrip rest = None ->
  cleanWhiteSpace (t +:+ w +:+ rest) = t +:+ String SP (cleanWhiteSpace rest).
Proof.
  intros Ht Hne Hw Hr.
  rewrite cleanWhiteSpace_free_app by (done || by apply run_headLead).
  f_equal. destruct (wsStrip w) as [r'|] eqn:E.
  - destruct (wsStrip_Some _ _ E) as (e & Hin & ->).
    rewrite append_assoc.
    rewrite (cleanWhiteSpace_ws _ (r' +:+ rest)) by by apply wsStrip_append.
    do 2 f_equal. apply skipRun_app; [|done].
    by rewrite <- (skipRun_ws _ _ E).
  - rewrite skipRun_plain in Hw by done. done.
Qed.

(** ** Sources without markup *)

Section TextOnly.
Context {T : Type} `{HtmlTexter T}.

Lemma run_texts mustTag z texts u (t : option T) :
  Err z = io_EOF ->
  run mustTag z (TextTok <$> texts) (mkState [] u t) =
  Return (if u && mustTag then Some NoTagsError else None)
         (mkState [] u (feedTexts texts t)).
Proof.
  intros Hz. revert t. induction texts as [|x texts IH]; intros t.
  - cbn [fmap list_fmap run feedTexts foldl].
    rewrite (body_ErrorToken mustTag z [] u t), Hz.
    by destruct (u && mustTag).
  - cbn [fmap list_fmap run feedTexts foldl].
    assert (body mustTag z (Some (TextTok x)) (mkState [] u t)
            = Continue (mkState [] u (Text "" x <$> t))) as ->
      by (by destruct t).
    apply IH.
Qed.

End TextOnly.

(** * The claims *)

(** C1 (the code departs from it).  [Custom2Text] does not pass [mustTag]
    on: it calls [simpleParse] with [false], so its result does not depend
    on [mustTag], and on a source without any tag-like construct it
    returns the text and no error where the parse with [mustTag = true]
    gives the error "Contains no tags". *)
Theorem Custom2Text_ignores_mustTag :
  (forall (T : Type) (H : HtmlTexter T) NewTokenizer src mustTag
          (texter : option T),
     Custom2Text NewTokenizer src mustTag texter
     = Custom2Text NewTokenizer src false texter) /\
  (forall (T : Type) (H : HtmlTexter T) texts src (cb : T),
     let NewTokenizer := fun _ : string => mkTokenizer (TextTok <$> texts) io_EOF in
     (exists st, simpleParse (NewTokenizer src) true (Some cb)
                 = Return (Some NoTagsError) st) /\
     exists out, Custom2Text NewTokenizer src true (Some cb)
                 = Returns (out, None)) /\
  Custom2Text html.NewTokenizer "hello world" true
              (Some (mkSimpleTexter "" LFs))
  = Returns ("hello world", None).
Proof.
  split; [done|]. split; [|by vm_compute].
  intros T H texts src cb NewTokenizer. unfold Custom2Text, simpleParse.
  cbn [NewTokenizer tokens]. unfold stack.New.
  rewrite !run_texts by done. cbn [andb]. split; [by eexists|].
  assert (exists h, feedTexts texts (Some cb) = Some h) as [h ->]; [|by eexists].
  unfold feedTexts. generalize cb. clear cb.
  induction texts as [|x texts IH]; intros cb; cbn; [by eexists|apply IH].
Qed.

Lemma Error_NoTags (e : error) :
  String.eqb (Error e) "Contains no tags" = true <-> e = NoTagsError.
Proof.
  rewrite String.eqb_eq. split; [|by intros ->].
  destruct e; cbn; try discriminate. by intros ->.
Qed.

(** C2.  [IsPlainText] returns [true] exactly when the parse of the
    source with [mustTag = true] and a [nil] texter ends with the error
    "Contains no tags"; it is [true] on "hello world" and on the empty
    source and [false] on "<p>hi</p>". *)
Theorem IsPlainText_iff_NoTagsError :
  (forall NewTokenizer src,
     exists b, IsPlainText NewTokenizer src = Returns b /\
       (b = true <->
        exists st, simpleParse (T := Empty_set) (NewTokenizer src) true None
                   = Return (Some NoTagsError) st)) /\
  IsPlainText html.NewTokenizer "hello world" = Returns true /\
  IsPlainText html.NewTokenizer "" = Returns true /\
  IsPlainText html.NewTokenizer "<p>hi</p>" = Returns false.
Proof.
  split; [|by vm_compute].
  intros NewTokenizer src. unfold IsPlainText.
  destruct (simpleParse_returns (T := Empty_set) (NewTokenizer src) true None)
    as (err & st & ->).
  eexists; split; [done|]. destruct err as [e|].
  - rewrite Error_NoTags. split; [intros ->; by eexists|].
    by intros [st' [= ->]].
  - split; [done|]. by intros [st' [=]].
Qed.

(** C3.  On an end tag the loop fails with "End tag without start" when
    the stack is empty; otherwise it pops the top, fails with "Tag
    mismatch" (popped tag, then end tag) when the two differ, and
    otherwise runs the end-tag handler and goes on.  "<p>Hi</div>" fails
    with the mismatch of "p" and "div". *)
Theorem EndTag_dispatch :
  (forall (T : Type) (H : HtmlTexter T) mustTag z tag names u (t : option T),
     body mustTag z (Some (EndTagTok tag)) (mkState (stackOf names) u t) =
     match names with
     | [] => Return (Some (StrayEndTagError tag)) (mkState (stackOf []) u t)
     | popped :: rest =>
         if decide (popped = tag)
         then Continue (mkState (stackOf rest) u (EndTag tag <$> t))
         else Return (Some (TagMismatchError popped tag))
                     (mkState (stackOf rest) u t)
     end) /\
  (forall tag, Error (StrayEndTagError tag)
               = "End tag without start: </" +:+ tag +:+ ">") /\
  (forall popped tag, Error (TagMismatchError popped tag)
               = "Tag mismatch: <" +:+ popped +:+ "> with </" +:+ tag +:+ ">") /\
  (forall (T : Type) (H : HtmlTexter T) (cb : T),
     Custom2Text html.NewTokenizer "<p>Hi</div>" false (Some cb)
     = Returns ("", Some (TagMismatchError "p" "div"))) /\
  Error (TagMismatchError "p" "div") = "Tag mismatch: <p> with </div>".
Proof.
  split; [intros; apply body_EndTag|].
  repeat split; intros; by vm_compute.
Qed.

(** C4.  At the end of the input ([io.EOF]) with tags still open the
    parse fails with "Unterminated tag" naming the top of the stack only;
    with an empty stack it succeeds, unless tags were required and none
    was seen; an error of the tokenizer other than [io.EOF] is returned
    as it is.  A parse that succeeds leaves the stack empty.  "<p>Hi"
    fails with the unterminated tag "p". *)
Theorem ErrorToken_dispatch :
  (forall (T : Type) (H : HtmlTexter T) mustTag z names u (t : option T),
     body mustTag z None (mkState (stackOf names) u t) =
     if decide (Err z = io_EOF) then
       match names with
       | top :: rest =>
           Return (Some (UnterminatedTagError top)) (mkState (stackOf rest) u t)
       | [] =>
           if u && mustTag
           then Return (Some NoTagsError) (mkState (stackOf []) u t)
           else Return None (mkState (stackOf []) u t)
       end
     else Return (Some (Err z)) (mkState (stackOf names) u t)) /\
  (forall (T : Type) (H : HtmlTexter T) z mustTag (t : option T),
     match simpleParse z mustTag t with
     | Return None st => tagStack st = []
     | _ => True
     end) /\
  (forall name, Error (UnterminatedTagError name)
                = "Unterminated tag: <" +:+ name +:+ ">") /\
  (forall (T : Type) (H : HtmlTexter T) (cb : T),
     Custom2Text html.NewTokenizer "<p>Hi" false (Some cb)
     = Returns ("", Some (UnterminatedTagError "p")) /\
     Custom2Text html.NewTokenizer "<div><p>Hi" false (Some cb)
     = Returns ("", Some (UnterminatedTagError "p")) /\
     Custom2Text html.NewTokenizer "<p>Hi</p>" false (Some cb)
     = Returns (fst (String_ (EndTag "p" (Text "p" "Hi" (StartTag "p" cb)))),
                None)).
Proof.
  split; [intros; apply body_ErrorToken|].
  split.
  { intros T H z mustTag t.
    destruct (simpleParse z mustTag t) as [|[e|] st|] eqn:E; try done.
    by apply run_success_empty in E. }
  split; [done|].
  intros T H cb. repeat split; by vm_compute.
Qed.

(** C5.  A start tag whose name is one of the sixteen void elements is
    handled as a self-closing tag: nothing is pushed and the self-tag
    handler runs; any other start tag is pushed and the start-tag handler
    runs.  "<br>Line2" parses with an empty stack at the end. *)
Theorem void_elements_self_closing :
  (forall tag, index_bool voidElements tag = true <->
     tag ∈ [ "area"; "base"; "br"; "col"; "command"; "embed"; "hr"; "img";
             "input"; "keygen"; "link"; "meta"; "param"; "source"; "track";
             "wbr" ]) /\
  (forall (T : Type) (H : HtmlTexter T) mustTag z tag (st : State T),
     body mustTag z (Some (StartTagTok tag)) st =
     if index_bool voidElements tag
     then body mustTag z (Some (SelfClosingTagTok tag)) st
     else Continue (mkState (any_string tag :: tagStack st) false
                            (StartTag tag <$> texter st))) /\
  (forall (T : Type) (H : HtmlTexter T) mustTag z tag (st : State T),
     body mustTag z (Some (SelfClosingTagTok tag)) st =
     Continue (mkState (tagStack st) false (SelfTag tag <$> texter st))) /\
  (forall (T : Type) (H : HtmlTexter T) (cb : T),
     simpleParse (html.NewTokenizer "<br>Line2") false (Some cb)
     = Return None (mkState [] false
                            (Some (Text "" "Line2" (SelfTag "br" cb)))) /\
     Custom2Text html.NewTokenizer "<br>Line2" false (Some cb)
     = Returns (fst (String_ (Text "" "Line2" (SelfTag "br" cb))), None)).
Proof.
  split.
  { intros tag. rewrite voidElements_spec. apply bool_decide_eq_true. }
  split.
  { intros. rewrite body_StartTag, body_SelfClosingTag. done. }
  split; [intros; apply body_SelfClosingTag|].
  intros T H cb. split; by vm_compute.
Qed.

(** C10.  From a stack that holds strings, a turn of the loop does not
    panic and leaves a stack that holds strings: [Pop] and [Peek] are
    reached on a stack that is not empty only, where they give the string
    on top.  So [simpleParse] returns, whatever the tokens.  (On an empty
    stack [Peek] gives [nil], on which the type assertion fails, and a
    turn on a stack with a value that is no string panics.) *)
Theorem simpleParse_never_panics :
  (forall (T : Type) (H : HtmlTexter T) mustTag z cur names u (t : option T),
     match body mustTag z cur (mkState (stackOf names) u t) with
     | Continue st' | Return _ st' =>
         exists names', tagStack st' = stackOf names'
     | Panic => False
     end) /\
  (forall (T : Type) (H : HtmlTexter T) z mustTag (t : option T),
     exists err st, simpleParse z mustTag t = Return err st) /\
  (forall name names,
     assert_string (stack.Pop (stackOf (name :: names))).1 = Some name /\
     assert_string (stack.Peek (stackOf (name :: names))) = Some name /\
     (stack.Len (stackOf (name :: names)) >? 0) = true) /\
  assert_string (stack.Peek stack.New) = None /\
  assert_string (stack.Pop stack.New).1 = None /\
  (forall (T : Type) (H : HtmlTexter T) mustTag z tag u (t : option T),
     body mustTag z (Some (EndTagTok tag)) (mkState [any_nil] u t) = Panic).
Proof.
  split; [intros; apply body_stackOf|].
  split; [intros; apply simpleParse_returns|].
  split.
  { intros name names. repeat split. }
  repeat split.
Qed.

(** C6.  The text handler of the default builder leaves the buffer as it
    is when the enclosing tag is "title" and appends [cleanWhiteSpace] of
    the text otherwise.  [cleanWhiteSpace] copies text without white
    space, and in a text [t ++ w ++ rest], where [t] has no white space,
    [w] is a run of white space that is not empty and [rest] does not
    start with white space, it puts one space for [w].
    "<title>ignore</title><p>Hi</p>" gives "Hi". *)
Theorem simpleTexter_Text_spec (enclosing t w rest : string) (h : simpleTexter) :
  wsFree t = true -> w <> "" -> skipRun w = "" -> wsStrip rest = None ->
  simpleTexter_Text "title" (t +:+ w +:+ rest) h = h /\
  simpleTexter_Text enclosing (t +:+ w +:+ rest) h =
    (if decide (enclosing = "title") then h
     else mkSimpleTexter
            (sb h +:+ t +:+ String SP (cleanWhiteSpace rest)) (lbr h)) /\
  cleanWhiteSpace t = t /\
  (forall raw, simpleTexter_Text enclosing raw h =
     if decide (enclosing = "title") then h
     else mkSimpleTexter (sb h +:+ cleanWhiteSpace raw) (lbr h)) /\
  HTML2Text html.NewTokenizer "<title>ignore</title><p>Hi</p>" [] = Returns "Hi".
Proof.
  intros Ht Hne Hw Hr.
  assert (forall raw, simpleTexter_Text enclosing raw h =
     if decide (enclosing = "title") then h
     else mkSimpleTexter (sb h +:+ cleanWhiteSpace raw) (lbr h)) as Htext.
  { intros raw. unfold simpleTexter_Text.
    destruct (decide (enclosing = "title")) as [->|Hd]; [done|].
    apply String.eqb_neq in Hd. by rewrite Hd. }
  split; [done|]. split.
  { rewrite Htext. destruct (decide _); [done|].
    by rewrite cleanWhiteSpace_run. }
  split; [by apply cleanWhiteSpace_free|].
  split; [done|]. by vm_compute.
Qed.

Lemma simpleTexter_Text_spec_witness :
  simpleTexter_Text "p"
    ("Hello," +:+ bytes [0x20; 0x09; 0xC2; 0xA0; 0xE3; 0x80; 0x80; 0x0A]%N
              +:+ "World")
    (mkSimpleTexter "" LFs)
  = mkSimpleTexter ("Hello," +:+ String SP "World") LFs.
Proof.
  pose proof (simpleTexter_Text_spec "p" "Hello,"
    (bytes [0x20; 0x09; 0xC2; 0xA0; 0xE3; 0x80; 0x80; 0x0A]%N) "World"
    (mkSimpleTexter "" LFs)) as W.
  destruct W as (_ & W & _);
    [reflexivity | discriminate | reflexivity | reflexivity |].
  exact W.
Defined.

(** C7.  [String] returns the buffer without the spaces, carriage returns
    and line feeds at its two ends, and leaves the builder as it is: two
    calls in a row return the same text, and trimming a trimmed text
    changes nothing. *)
Theorem simpleTexter_String_spec :
  cutset_String = bytes [0x20; 0x0D; 0x0A]%N /\
  (forall h, simpleTexter_String h = (Trim (sb h) cutset_String, h)) /\
  (forall h, snd (simpleTexter_String h) = h /\
             fst (simpleTexter_String (snd (simpleTexter_String h)))
             = fst (simpleTexter_String h)) /\
  (forall s, exists l r,
     s = l +:+ Trim s cutset_String +:+ r /\
     allIn cutset_String l = true /\ allIn cutset_String r = true) /\
  (forall s, outside cutset_String (firstByte (Trim s cutset_String)) /\
             outside cutset_String (lastByte (Trim s cutset_String))) /\
  (forall s, Trim (Trim s cutset_String) cutset_String = Trim s cutset_String) /\
  Trim (bytes [0x0A; 0x20; 0x48; 0x69; 0x20; 0x0A; 0x78; 0x0D; 0x0A]%N)
       cutset_String = bytes [0x48; 0x69; 0x20; 0x0A; 0x78]%N.
Proof.
  split; [done|]. split; [done|]. split; [done|].
  split; [intros; apply Trim_split|].
  split; [intros; apply Trim_trimmed|].
  split; [intros; apply Trim_idempotent|done].
Qed.

Lemma openingBreakers_spec (tag : string) :
  index_int openingBreakers tag =
  if bool_decide (tag ∈ ["p"; "ul"]) then 1
  else if bool_decide (tag ∈ headings) then 2 else 0.
Proof.
  unfold index_int, openingBreakers, headings; cbn [list_to_map foldr uncurry].
  table_cases tag; try (vm_compute; reflexivity).
  assert (tag ∉ ["p"; "ul"]) by not_in_list.
  assert (tag ∉ ["h1"; "h2"; "h3"; "h4"; "h5"; "h6"]) by not_in_list.
  by rewrite !bool_decide_eq_false_2.
Qed.

Lemma closingBreakers_spec (tag : string) :
  index_int closingBreakers tag =
  if bool_decide (tag ∈ ["p"; "li"]) then 1
  else if bool_decide (tag ∈ headings) then 2 else 0.
Proof.
  unfold index_int, closingBreakers, headings; cbn [list_to_map foldr uncurry].
  table_cases tag; try (vm_compute; reflexivity).
  assert (tag ∉ ["p"; "li"]) by not_in_list.
  assert (tag ∉ ["h1"; "h2"; "h3"; "h4"; "h5"; "h6"]) by not_in_list.
  by rewrite !bool_decide_eq_false_2.
Qed.

Lemma selfBreakers_spec (tag : string) :
  index_int selfBreakers tag = if bool_decide (tag = "br") then 1 else 0.
Proof.
  unfold index_int, selfBreakers; cbn [list_to_map foldr uncurry].
  table_cases tag; [done|].
  by rewrite bool_decide_eq_false_2.
Qed.

(** No table holds a negative count, so [strings.Repeat] does not panic. *)
Lemma breakers_nonneg (tag : string) :
  0 <= index_int openingBreakers tag /\
  0 <= index_int closingBreakers tag /\
  0 <= index_int selfBreakers tag.
Proof.
  rewrite openingBreakers_spec, closingBreakers_spec, selfBreakers_spec.
  repeat case_match; lia.
Qed.

(** C8.  The three tables: opening p = 1, h1..h6 = 2, ul = 1; closing
    p = 1, h1..h6 = 2, li = 1; self br = 1; every other tag reads 0.
    "<p>Hello</p><p>World</p>" gives "Hello", two line breaks, "World". *)
Theorem breaker_tables :
  (forall tag,
     index_int openingBreakers tag =
       (if bool_decide (tag ∈ ["p"; "ul"]) then 1
        else if bool_decide (tag ∈ ["h1"; "h2"; "h3"; "h4"; "h5"; "h6"])
             then 2 else 0) /\
     index_int closingBreakers tag =
       (if bool_decide (tag ∈ ["p"; "li"]) then 1
        else if bool_decide (tag ∈ ["h1"; "h2"; "h3"; "h4"; "h5"; "h6"])
             then 2 else 0) /\
     index_int selfBreakers tag = (if bool_decide (tag = "br") then 1 else 0)) /\
  HTML2Text html.NewTokenizer "<p>Hello</p><p>World</p>" []
  = Returns ("Hello" +:+ LFs +:+ LFs +:+ "World") /\
  HTML2Text html.NewTokenizer "<p>Hello</p><p>World</p>" [true]
  = Returns ("Hello" +:+ CRLFs +:+ CRLFs +:+ "World") /\
  GlobalLbr.HTML2Text GlobalLbr.lbr_init html.NewTokenizer
    "<p>Hello</p><p>World</p>"
  = Returns ("Hello" +:+ CRLFs +:+ CRLFs +:+ "World") /\
  GlobalLbr.HTML2Text (GlobalLbr.SetUnixLbr true) html.NewTokenizer
    "<p>Hello</p><p>World</p>"
  = Returns ("Hello" +:+ LFs +:+ LFs +:+ "World") /\
  (exists st,
     simpleParse (html.NewTokenizer "<p>Hello</p><p>World</p>") false
                 (Some (mkSimpleTexter "" LFs))
     = Return None st /\
     texter st = Some (mkSimpleTexter
       (LFs +:+ "Hello" +:+ LFs +:+ LFs +:+ "World" +:+ LFs) LFs)).
Proof.
  split.
  { intros tag. split; [apply openingBreakers_spec|].
    split; [apply closingBreakers_spec|apply selfBreakers_spec]. }
  repeat split; try by vm_compute.
  eexists. split; by vm_compute.
Qed.

(** C9.  [HTML2Text] returns the empty string when the parse ends with an
    error, whatever the error, and the trimmed buffer of the builder when
    the parse succeeds; it neither panics nor returns an error.  The same
    holds in the variant with the package-level line break. *)
Theorem HTML2Text_swallows_errors :
  (forall NewTokenizer src winLbr,
     let lbr := match winLbr with true :: _ => CRLFs | _ => LFs end in
     exists err st h,
       simpleParse (NewTokenizer src) false (Some (mkSimpleTexter "" lbr))
       = Return err st /\
       texter st = Some h /\
       HTML2Text NewTokenizer src winLbr =
       Returns match err with
               | None => fst (simpleTexter_String h)
               | Some _ => ""
               end) /\
  (forall lbr NewTokenizer src,
     exists err st h,
       simpleParse (H := GlobalLbr.texter_methods lbr) (NewTokenizer src) false
                   (Some (GlobalLbr.mkSimpleTexter ""))
       = Return err st /\
       texter st = Some h /\
       GlobalLbr.HTML2Text lbr NewTokenizer src =
       Returns match err with
               | None => fst (GlobalLbr.String_ h)
               | Some _ => ""
               end).
Proof.
  split.
  - intros NewTokenizer src winLbr lbr.
    destruct (simpleParse_returns (NewTokenizer src) false
                (Some (mkSimpleTexter "" lbr))) as (err & st & E).
    assert (is_Some (texter st)) as [h Hh].
    { unfold simpleParse in E. apply run_texter in E. by apply E. }
    exists err, st, h. split; [done|]. split; [done|].
    unfold HTML2Text. fold lbr.
    replace (match winLbr with
             | true :: _ => String CR (String LF "")
             | _ => String LF ""
             end) with lbr by (by destruct winLbr as [|[] ?]).
    rewrite E. destruct st as [s u t]; cbn in Hh; subst t.
    by destruct err.
  - intros lbr NewTokenizer src.
    destruct (simpleParse_returns (H := GlobalLbr.texter_methods lbr)
                (NewTokenizer src) false
                (Some (GlobalLbr.mkSimpleTexter ""))) as (err & st & E).
    assert (is_Some (texter st)) as [h Hh].
    { unfold simpleParse in E. apply run_texter in E. by apply E. }
    exists err, st, h. split; [done|]. split; [done|].
    unfold GlobalLbr.HTML2Text. rewrite E.
    destruct st as [s u t]; cbn in Hh; subst t.
    by destruct err.
Qed.

(** * Further properties *)

(** ** The turns of the loop on a stack of tag names *)

Section TurnFacts.
Context {T : Type} `{HtmlTexter T}.
Implicit Types (st : State T) (names : list string) (t : option T).

Lemma body_TextTok mustTag z x names u t :
  body mustTag z (Some (TextTok x)) (mkState (stackOf names) u t) =
  Continue (mkState (stackOf names) u (Text (enclosingOf names) x <$> t)).
Proof.
  unfold body; cbn [typeOf TagName TextOf tagStack untagged texter].
  rewrite bool_decide_eq_false_2 by done. cbn [andb].
  destruct t as [h|]; [|done].
  destruct names as [|n names]; [done|].
  cbn [stackOf fmap list_fmap].
  by rewrite (proj1 (Len_cons_pos _ _)).
Qed.

Lemma body_CommentTok mustTag z x st :
  body mustTag z (Some (CommentTok x)) st =
  Continue (mkState (tagStack st) false (SelfTag "" <$> texter st)).
Proof.
  unfold body; cbn [typeOf TagName]. by rewrite bool_decide_eq_false_2.
Qed.

Lemma body_DoctypeTok mustTag z x st :
  body mustTag z (Some (DoctypeTok x)) st =
  Continue (mkState (tagStack st) false (SelfTag "" <$> texter st)).
Proof.
  unfold body; cbn [typeOf TagName]. by rewrite bool_decide_eq_false_2.
Qed.

Lemma run_steps mustTag z toks st :
  run mustTag z toks st =
  match steps mustTag z toks st with
  | Continue st' => body mustTag z None st'
  | r => r
  end.
Proof.
  revert st. induction toks as [|tok toks IH]; intros st; cbn [run steps]; [done|].
  destruct (body mustTag z (Some tok) st); [apply IH|done|done].
Qed.

Lemma steps_app mustTag z toks1 toks2 st :
  steps mustTag z (toks1 ++ toks2) st =
  match steps mustTag z toks1 st with
  | Continue st' => steps mustTag z toks2 st'
  | r => r
  end.
Proof.
  revert st. induction toks1 as [|tok toks1 IH]; intros st; [done|].
  cbn [app steps].
  destruct (body mustTag z (Some tok) st); [apply IH|done|done].
Qed.

(** A turn on a token never returns without an error. *)
Lemma body_token_error mustTag z tok st st' :
  body mustTag z (Some tok) st <> Return None st'.
Proof.
  unfold body. repeat case_match; try discriminate.
  by destruct tok.
Qed.

Lemma steps_error mustTag z toks st st' :
  steps mustTag z toks st <> Return None st'.
Proof.
  revert st. induction toks as [|tok toks IH]; intros st; cbn [steps]; [done|].
  destruct (body mustTag z (Some tok) st) as [s1|e1 s1|] eqn:E; [apply IH| |done].
  intros [= -> ->]. by apply body_token_error in E.
Qed.

(** The turns keep a stack of tag names and never panic on it. *)
Lemma steps_stackOf mustTag z toks names u t :
  match steps mustTag z toks (mkState (stackOf names) u t) with
  | Continue st' | Return _ st' => exists names', tagStack st' = stackOf names'
  | Panic => False
  end.
Proof.
  revert names u t. induction toks as [|tok toks IH]; intros names u t;
    cbn [steps]; [by exists names|].
  pose proof (body_stackOf mustTag z (Some tok) names u t) as Hb.
  destruct (body _ _ _ _) as [[s1 u1 t1]|e1 s1|]; [|done|done].
  destruct Hb as [names1 Hn]; cbn in Hn; subst s1. apply IH.
Qed.

End TurnFacts.

(** ** Well-nested token sequences *)

Lemma nested_app (x y : list Token) : nested x -> nested y -> nested (x ++ y).
Proof.
  intros Hx Hy. induction Hx as [|tok toks Hl _ IH|n inner rest Hn Hi _ Hr IH].
  - done.
  - cbn [app]. by apply nested_leaf.
  - cbn [app]. rewrite <- app_assoc. cbn [app]. by apply nested_element.
Qed.

Lemma closes_prepend (ns : list string) (x rest : list Token) :
  nested x -> closes ns rest -> closes ns (x ++ rest).
Proof.
  intros Hx. destruct ns as [|m ns]; cbn [closes].
  - by apply nested_app.
  - intros (w & rest' & -> & Hw & Hc). exists (x ++ w), rest'.
    split; [by rewrite app_assoc|]. split; [by apply nested_app|done].
Qed.

Lemma closes_leaf (ns : list string) (tok : Token) (toks : list Token) :
  isLeaf tok = true -> closes ns toks -> closes ns (tok :: toks).
Proof.
  intros Hl. apply (closes_prepend ns [tok]).
  apply nested_leaf; [done|constructor].
Qed.

Lemma closes_element (ns : list string) (n : string) (toks : list Token) :
  index_bool voidElements n = false ->
  closes (n :: ns) toks -> closes ns (StartTagTok n :: toks).
Proof.
  intros Hn (w & rest & -> & Hw & Hc).
  replace (StartTagTok n :: w ++ EndTagTok n :: rest)
    with ((StartTagTok n :: w ++ EndTagTok n :: []) ++ rest)
    by (cbn [app]; rewrite <- app_assoc; done).
  apply closes_prepend; [|done]. apply nested_element; [done|done|constructor].
Qed.

Section NestingFacts.
Context {T : Type} `{HtmlTexter T}.
Implicit Types (st : State T) (names : list string) (t : option T).

(** A leaf leaves the stack as it is. *)
Lemma body_leaf mustTag z tok names u t :
  isLeaf tok = true ->
  exists u' t', body mustTag z (Some tok) (mkState (stackOf names) u t)
                = Continue (mkState (stackOf names) u' t').
Proof.
  destruct tok as [x|n|n|n|x|x]; cbn [isLeaf]; intros Hl; try done.
  - rewrite body_TextTok. by eexists _, _.
  - rewrite body_StartTag, Hl. by eexists _, _.
  - rewrite body_SelfClosingTag. by eexists _, _.
  - rewrite body_CommentTok. by eexists _, _.
  - rewrite body_DoctypeTok. by eexists _, _.
Qed.

(** A well-nested sequence is read to its end and leaves the stack as
    it found it. *)
Lemma steps_nested mustTag z toks :
  nested toks ->
  forall names u t, exists u' t',
    steps mustTag z toks (mkState (stackOf names) u t)
    = Continue (mkState (stackOf names) u' t').
Proof.
  induction 1 as [|tok toks Hl _ IH|n inner rest Hn _ IHi _ IHr];
    intros names u t.
  - by exists u, t.
  - cbn [steps]. destruct (body_leaf mustTag z tok names u t Hl) as (u1 & t1 & ->).
    apply IH.
  - cbn [steps]. rewrite body_StartTag, Hn. cbn [tagStack texter].
    change (any_string n :: stackOf names) with (stackOf (n :: names)).
    rewrite steps_app.
    destruct (IHi (n :: names) false (StartTag n <$> t)) as (u1 & t1 & ->).
    cbn [steps]. rewrite body_EndTag.
    destruct (decide (n = n)); [|done]. apply IHr.
Qed.

(** A parse that succeeds has read a sequence that closes the tags that
    were open. *)
Lemma run_success_closes mustTag z toks names u t st' :
  Err z = io_EOF ->
  run mustTag z toks (mkState (stackOf names) u t) = Return None st' ->
  closes names toks.
Proof.
  intros Hz. revert names u t.
  induction toks as [|tok toks IH]; intros names u t; cbn [run].
  - rewrite body_ErrorToken, Hz.
    destruct (decide (io_EOF = io_EOF)); [|done].
    destruct names; [|done]. intros _. constructor.
  - destruct tok as [x|n|n|n|x|x].
    + rewrite body_TextTok. intros E. apply closes_leaf; [done|]. by eapply IH.
    + rewrite body_StartTag. destruct (index_bool voidElements n) eqn:Hn.
      * intros E. apply closes_leaf; [done|]. by eapply IH.
      * intros E. apply closes_element; [done|].
        by eapply (IH (n :: names)).
    + rewrite body_EndTag. destruct names as [|p names]; [done|].
      destruct (decide (p = n)) as [->|]; [|done].
      intros E. exists [], toks. split; [done|]. split; [constructor|].
      by eapply IH.
    + rewrite body_SelfClosingTag. intros E. apply closes_leaf; [done|].
      by eapply (IH names).
    + rewrite body_CommentTok. intros E. apply closes_leaf; [done|].
      by eapply (IH names).
    + rewrite body_DoctypeTok. intros E. apply closes_leaf; [done|].
      by eapply (IH names).
Qed.

(** The flag [untagged] is still set exactly when every token read was
    a text token. *)
Lemma steps_untagged mustTag z toks names u t st' :
  names = [] \/ u = false ->
  steps mustTag z toks (mkState (stackOf names) u t) = Continue st' ->
  untagged st' = u && forallb isText toks /\
  (tagStack st' = [] \/ untagged st' = false).
Proof.
  revert names u t. induction toks as [|tok toks IH]; intros names u t Hinv;
    cbn [steps forallb].
  - intros [= <-]. cbn. rewrite andb_true_r. split; [done|].
    destruct Hinv as [-> | ->]; [by left|by right].
  - destruct tok as [x|n|n|n|x|x]; cbn [isText].
    + rewrite body_TextTok. intros E.
      by apply (IH names u _ Hinv) in E.
    + rewrite body_StartTag. rewrite andb_false_r.
      destruct (index_bool voidElements n); intros E.
      * apply (IH names false) in E; [done|by right].
      * apply (IH (n :: names) false) in E; [done|by right].
    + rewrite body_EndTag. rewrite andb_false_r.
      destruct names as [|p names]; [done|].
      destruct Hinv as [Hnil | ->]; [done|].
      destruct (decide (p = n)); [|done]. intros E.
      apply (IH names false) in E; [done|by right].
    + rewrite body_SelfClosingTag. rewrite andb_false_r. intros E.
      apply (IH names false) in E; [done|by right].
    + rewrite body_CommentTok. rewrite andb_false_r. intros E.
      apply (IH names false) in E; [done|by right].
    + rewrite body_DoctypeTok. rewrite andb_false_r. intros E.
      apply (IH names false) in E; [done|by right].
Qed.

End NestingFacts.

(** X1.  When the tokenizer ends with [io.EOF], [simpleParse] returns no
    error exactly when the tokens are well nested and, if tags are
    required, one of them is not a text token. *)
Theorem simpleParse_succeeds_iff_nested (T : Type) (H : HtmlTexter T)
    (z : Tokenizer) (mustTag : bool) (t : option T) :
  Err z = io_EOF ->
  (exists st, simpleParse z mustTag t = Return None st) <->
  nested (tokens z) /\ (mustTag = true -> forallb isText (tokens z) = false).
Proof.
  intros Hz. unfold simpleParse, stack.New.
  change (@nil any) with (stackOf []). split.
  - intros [st E]. split; [by eapply (run_success_closes _ _ _ [])|].
    intros ->. rewrite run_steps in E.
    pose proof (steps_stackOf true z (tokens z) [] true t) as Hs.
    destruct (steps _ _ _ _) as [[s1 u1 t1]|e1 s1|] eqn:Es; [| |done].
    2: { injection E as -> ->. by apply steps_error in Es. }
    destruct Hs as [names1 Hn]; cbn in Hn; subst s1.
    apply steps_untagged in Es as [Hu _]; [|by left]. cbn in Hu.
    rewrite body_ErrorToken, Hz in E.
    destruct (decide (io_EOF = io_EOF)); [|done].
    destruct names1; [|done]. rewrite andb_true_r in E.
    destruct u1; [done|]. by rewrite Hu.
  - intros [Hn Hm]. rewrite run_steps.
    destruct (steps_nested mustTag z _ Hn [] true t) as (u1 & t1 & Es).
    rewrite Es. apply steps_untagged in Es as [Hu _]; [|by left]. cbn in Hu.
    rewrite body_ErrorToken, Hz.
    destruct (decide (io_EOF = io_EOF)); [|done].
    destruct mustTag; [|rewrite andb_false_r; by eexists].
    rewrite Hu, Hm by done. by eexists.
Qed.

Lemma simpleParse_succeeds_iff_nested_witness :
  (exists st, simpleParse (html.NewTokenizer "<div><br><p>Hi</p></div>") true
                          (Some (mkSimpleTexter "" LFs)) = Return None st) <->
  nested (tokens (html.NewTokenizer "<div><br><p>Hi</p></div>")) /\
  (true = true ->
   forallb isText (tokens (html.NewTokenizer "<div><br><p>Hi</p></div>")) = false).
Proof.
  apply (simpleParse_succeeds_iff_nested simpleTexter _
           (html.NewTokenizer "<div><br><p>Hi</p></div>") true
           (Some (mkSimpleTexter "" LFs))).
  reflexivity.
Defined.

(** ** Two runs side by side *)

Section Simulation.
Context {T1 T2 : Type} (H1 : HtmlTexter T1) (H2 : HtmlTexter T2).
Variable R : option T1 -> option T2 -> Prop.
Hypothesis R_StartTag : forall tag o1 o2,
  R o1 o2 -> R (StartTag tag <$> o1) (StartTag tag <$> o2).
Hypothesis R_SelfTag : forall tag o1 o2,
  R o1 o2 -> R (SelfTag tag <$> o1) (SelfTag tag <$> o2).
Hypothesis R_EndTag : forall tag o1 o2,
  R o1 o2 -> R (EndTag tag <$> o1) (EndTag tag <$> o2).
Hypothesis R_Text : forall enclosing x o1 o2,
  R o1 o2 -> R (Text enclosing x <$> o1) (Text enclosing x <$> o2).
Variables (loose mustTag : bool) (z1 z2 : Tokenizer).
Hypothesis same_Err : Err z1 = Err z2.
Hypothesis loose_ok : loose = true -> mustTag = false.

Lemma body_sim cur st1 st2 :
  simState R loose st1 st2 ->
  simOutcome R loose (body mustTag z1 cur st1) (body mustTag z2 cur st2).
Proof.
  destruct st1 as [s1 u1 t1], st2 as [s2 u2 t2].
  intros (names & E1 & E2 & Hu & Ht). cbn in E1, E2, Hu, Ht. subst s1 s2.
  destruct cur as [[x|n|n|n|x|x]|].
  - rewrite !body_TextTok. exists names. cbn. auto.
  - rewrite !body_StartTag. destruct (index_bool voidElements n); cbn.
    + exists names. cbn. auto.
    + exists (n :: names). cbn. auto.
  - rewrite !body_EndTag. destruct names as [|p names].
    + split; [done|]. exists []. cbn. auto.
    + destruct (decide (p = n)); cbn; [|split; [done|]]; exists names; cbn; auto.
  - rewrite !body_SelfClosingTag. exists names. cbn. auto.
  - rewrite !body_CommentTok. exists names. cbn. auto.
  - rewrite !body_DoctypeTok. exists names. cbn. auto.
  - rewrite !body_ErrorToken, <- same_Err.
    destruct (decide (Err z1 = io_EOF)); cbn.
    + destruct names as [|p names]; cbn.
      * destruct Hu as [Hl | <-].
        -- rewrite (loose_ok Hl), !andb_false_r. split; [done|].
           exists []. cbn. auto.
        -- destruct (u1 && mustTag); (split; [done|]); exists []; cbn; auto.
      * split; [done|]. exists names. cbn. auto.
    + split; [done|]. exists names. cbn. auto.
Qed.

Lemma run_sim toks st1 st2 :
  simState R loose st1 st2 ->
  simOutcome R loose (run mustTag z1 toks st1) (run mustTag z2 toks st2).
Proof.
  revert st1 st2. induction toks as [|tok toks IH]; intros st1 st2 Hs;
    cbn [run].
  - by apply body_sim.
  - pose proof (body_sim (Some tok) st1 st2 Hs) as Hb.
    destruct (body mustTag z1 (Some tok) st1), (body mustTag z2 (Some tok) st2);
      try done.
    by apply IH.
Qed.

End Simulation.

(** X2.  The error [simpleParse] returns does not depend on the texter:
    two texters of any kind, [nil] or not, give the same error or the
    same success on the same tokens, with the same stack and flag at the
    end. *)
Theorem simpleParse_error_independent_of_texter
    (T1 T2 : Type) (H1 : HtmlTexter T1) (H2 : HtmlTexter T2)
    (z : Tokenizer) (mustTag : bool) (t1 : option T1) (t2 : option T2) :
  exists err st1 st2,
    simpleParse z mustTag t1 = Return err st1 /\
    simpleParse z mustTag t2 = Return err st2 /\
    tagStack st1 = tagStack st2 /\ untagged st1 = untagged st2.
Proof.
  assert (simOutcome (fun _ _ => True) false
            (simpleParse z mustTag t1) (simpleParse z mustTag t2)) as Hs.
  { apply (run_sim H1 H2 (fun _ _ => True)); try done.
    exists []. cbn. auto. }
  destruct (simpleParse_returns z mustTag t1) as (e1 & s1 & R1).
  destruct (simpleParse_returns z mustTag t2) as (e2 & s2 & R2).
  rewrite R1, R2 in Hs |- *.
  destruct Hs as (-> & names & E1 & E2 & [Hu|Hu] & _); [done|].
  exists e2, s1, s2. by rewrite E1, E2.
Qed.

(** ** What the result depends on *)

Section Independence.
Context {T : Type} `{HtmlTexter T}.
Implicit Types (st : State T) (names : list string) (t : option T).

(** The turn on a token reads neither [mustTag] nor the tokenizer. *)
Lemma body_token_indep m1 m2 z1 z2 tok st :
  body m1 z1 (Some tok) st = body m2 z2 (Some tok) st.
Proof.
  unfold body. destruct tok; cbn [typeOf TagName TextOf];
    rewrite ?(bool_decide_eq_false_2 (_ = StartTagToken)) by done;
    rewrite ?(bool_decide_eq_true_2 (StartTagToken = StartTagToken)) by done;
    cbn [andb]; try done.
  by destruct (index_bool voidElements name).
Qed.

Lemma steps_indep m1 m2 z1 z2 toks st :
  steps m1 z1 toks st = steps m2 z2 toks st.
Proof.
  revert st. induction toks as [|tok toks IH]; intros st; cbn [steps]; [done|].
  rewrite (body_token_indep m1 m2 z1 z2).
  destruct (body m2 z2 (Some tok) st); [apply IH|done|done].
Qed.

Lemma body_None_same_Err m z1 z2 st :
  Err z1 = Err z2 -> body m z1 None st = body m z2 None st.
Proof. intros E. unfold body. cbn [typeOf TagName]. by rewrite E. Qed.

Lemma run_same_Err m z1 z2 toks st :
  Err z1 = Err z2 -> run m z1 toks st = run m z2 toks st.
Proof.
  intros E. rewrite !run_steps, (steps_indep m m z1 z2).
  destruct (steps m z2 toks st); [by apply body_None_same_Err|done|done].
Qed.

Lemma run_app m z toks1 toks2 st :
  run m z (toks1 ++ toks2) st =
  match steps m z toks1 st with
  | Continue st' => run m z toks2 st'
  | r => r
  end.
Proof.
  rewrite run_steps, steps_app.
  destruct (steps m z toks1 st); [by rewrite run_steps|done|done].
Qed.

End Independence.

(** ** The default builder *)

Lemma WriteString_nil (h : simpleTexter) : WriteString "" h = h.
Proof. destruct h as [b l]. unfold WriteString; cbn. by rewrite append_nil_r. Qed.

Lemma simpleTexter_Text_title (x : string) (o : option simpleTexter) :
  Text "title" x <$> o = o.
Proof. by destruct o. Qed.

Lemma simpleTexter_SelfTag_silent (n : string) (o : option simpleTexter) :
  n <> "br" -> SelfTag n <$> o = o.
Proof.
  intros Hn. destruct o as [h|]; [|done]. cbn. f_equal.
  unfold simpleTexter_SelfTag. rewrite selfBreakers_spec.
  rewrite bool_decide_eq_false_2 by done. apply WriteString_nil.
Qed.

(** The turn on a silent token changes the flag [untagged] at most. *)
Lemma body_silent m z tok names u (o : option simpleTexter) :
  isSilent tok = true ->
  body m z (Some tok) (mkState (stackOf names) u o)
  = Continue (mkState (stackOf names) false o).
Proof.
  destruct tok as [x|n|n|n|x|x]; cbn [isSilent]; intros Hs; try done.
  - apply andb_prop in Hs as [Hv Hn].
    apply negb_true_iff, String.eqb_neq in Hn.
    rewrite body_StartTag, Hv. cbn [tagStack texter].
    by rewrite simpleTexter_SelfTag_silent.
  - apply negb_true_iff, String.eqb_neq in Hs.
    rewrite body_SelfClosingTag. cbn [tagStack texter].
    by rewrite simpleTexter_SelfTag_silent.
  - rewrite body_CommentTok. cbn [tagStack texter].
    by rewrite simpleTexter_SelfTag_silent.
  - rewrite body_DoctypeTok. cbn [tagStack texter].
    by rewrite simpleTexter_SelfTag_silent.
Qed.

Lemma run_loose (z : Tokenizer) (toks : list Token) (names : list string)
    (u1 u2 : bool) (o : option simpleTexter) :
  simOutcome eq true (run false z toks (mkState (stackOf names) u1 o))
                     (run false z toks (mkState (stackOf names) u2 o)).
Proof.
  apply (run_sim _ _ eq); try done; try (by intros; subst).
  exists names. cbn. auto.
Qed.

(** X3.  [HTML2Text] gives the same result with and without a comment, a
    doctype, or a self-closing or void tag other than [br] in the token
    sequence: the default builder writes nothing for them. *)
Theorem HTML2Text_ignores_silent_tokens (pre post : list Token) (tok : Token)
    (e : error) (src : string) (winLbr : list bool) :
  isSilent tok = true ->
  HTML2Text (fun _ => mkTokenizer (pre ++ tok :: post) e) src winLbr
  = HTML2Text (fun _ => mkTokenizer (pre ++ post) e) src winLbr.
Proof.
  intros Hs. unfold HTML2Text, simpleParse. cbn [tokens].
  set (h0 := mkSimpleTexter "" _). set (z1 := mkTokenizer (_ ++ _ :: _) e).
  set (z2 := mkTokenizer (pre ++ post) e).
  rewrite !run_app, (steps_indep false false z1 z2).
  pose proof (steps_stackOf false z2 pre [] true (Some h0)) as Hp.
  unfold stack.New. change (@nil any) with (stackOf []).
  destruct (steps false z2 pre _) as [[s1 u1 o1]|e1 s1|]; [|done|done].
  destruct Hp as [names Hn]; cbn in Hn; subst s1.
  cbn [run]. rewrite body_silent by done.
  rewrite (run_same_Err false z1 z2) by done.
  pose proof (run_loose z2 post names false u1 o1) as Hr.
  destruct (run false z2 post (mkState _ false o1)) as [|r1 [a1 b1 c1]|],
           (run false z2 post (mkState _ u1 o1)) as [|r2 [a2 b2 c2]|]; try done.
  destruct Hr as (-> & names' & _ & _ & _ & Ho). cbn in Ho. by subst c2.
Qed.

Lemma HTML2Text_ignores_silent_tokens_witness :
  HTML2Text (fun _ => mkTokenizer
     ([StartTagTok "p"; TextTok "a"] ++ StartTagTok "img"
        :: [TextTok "b"; EndTagTok "p"]) io_EOF) "" []
  = HTML2Text (fun _ => mkTokenizer
     ([StartTagTok "p"; TextTok "a"] ++ [TextTok "b"; EndTagTok "p"]) io_EOF)
     "" [].
Proof.
  apply (HTML2Text_ignores_silent_tokens
           [StartTagTok "p"; TextTok "a"] [TextTok "b"; EndTagTok "p"]
           (StartTagTok "img") io_EOF "" []).
  reflexivity.
Defined.

(** X4.  Text directly inside [title] does not reach the result of
    [HTML2Text]: the result is the same as without the text token. *)
Theorem HTML2Text_drops_title_text (pre post : list Token) (x : string)
    (e : error) (src : string) (winLbr : list bool) :
  HTML2Text (fun _ => mkTokenizer
               (pre ++ StartTagTok "title" :: TextTok x :: post) e) src winLbr
  = HTML2Text (fun _ => mkTokenizer (pre ++ StartTagTok "title" :: post) e)
              src winLbr.
Proof.
  unfold HTML2Text, simpleParse. cbn [tokens].
  set (h0 := mkSimpleTexter "" _).
  set (z1 := mkTokenizer (_ ++ _ :: _ :: _) e).
  set (z2 := mkTokenizer (pre ++ _ :: post) e).
  rewrite !run_app, (steps_indep false false z1 z2).
  pose proof (steps_stackOf false z2 pre [] true (Some h0)) as Hp.
  unfold stack.New. change (@nil any) with (stackOf []).
  destruct (steps false z2 pre _) as [[s1 u1 o1]|e1 s1|]; [|done|done].
  destruct Hp as [names Hn]; cbn in Hn; subst s1.
  cbn [run]. rewrite !body_StartTag.
  replace (index_bool voidElements "title") with false by (by vm_compute).
  cbn [tagStack texter].
  change (any_string "title" :: stackOf names) with (stackOf ("title" :: names)).
  rewrite body_TextTok. cbn [enclosingOf].
  rewrite simpleTexter_Text_title.
  by rewrite (run_same_Err false z1 z2).
Qed.

(** X5.  The two source files compute the same text: [HTML2Text] of the
    file with the package variable, after [SetUnixLbr(b)], is [HTML2Text]
    of the other file called with [winLbr = !b]. *)
Theorem HTML2Text_variants_agree (NewTokenizer : string -> Tokenizer)
    (src : string) (b : bool) :
  GlobalLbr.HTML2Text (GlobalLbr.SetUnixLbr b) NewTokenizer src
  = HTML2Text NewTokenizer src [negb b].
Proof.
  set (lbr0 := GlobalLbr.SetUnixLbr b).
  unfold GlobalLbr.HTML2Text, HTML2Text.
  replace (match [negb b] with
           | true :: _ => String CR (String LF "")
           | _ => String LF ""
           end) with lbr0 by (by destruct b).
  assert (simOutcome (sameBuffer lbr0) false
            (simpleParse (NewTokenizer src) false
                         (Some (mkSimpleTexter "" lbr0)))
            (simpleParse (H := GlobalLbr.texter_methods lbr0)
                         (NewTokenizer src) false
                         (Some (GlobalLbr.mkSimpleTexter "")))) as Hs.
  { apply (run_sim _ (GlobalLbr.texter_methods lbr0) (sameBuffer lbr0));
      try done.
    - intros tag [h1|] [h2|]; try done. intros [E1 E2]. cbn.
      unfold GlobalLbr.StartTag. cbn. by rewrite E1, E2.
    - intros tag [h1|] [h2|]; try done. intros [E1 E2]. cbn.
      unfold GlobalLbr.SelfTag. cbn. by rewrite E1, E2.
    - intros tag [h1|] [h2|]; try done. intros [E1 E2]. cbn.
      unfold GlobalLbr.EndTag. cbn. by rewrite E1, E2.
    - intros enc x [h1|] [h2|]; try done. intros [E1 E2]. cbn.
      unfold simpleTexter_Text, GlobalLbr.Text.
      destruct (negb _); cbn; by rewrite ?E1, ?E2.
    - exists []. cbn. auto. }
  destruct (simpleParse _ false (Some (mkSimpleTexter "" lbr0)))
    as [|e1 [a1 b1 c1]|],
    (simpleParse _ false (Some (GlobalLbr.mkSimpleTexter "")))
    as [|e2 [a2 b2 c2]|]; try done.
  destruct Hs as (-> & names & _ & _ & _ & Hb). cbn in Hb.
  destruct c1 as [h1|], c2 as [h2|]; try done.
  destruct Hb as [Hb _]. destruct e2; [done|].
  cbn. unfold GlobalLbr.String_. cbn. by rewrite Hb.
Qed.

(** ** The errors of the parse *)

Lemma nesting_not_NoTags (e : error) :
  isNestingError e -> String.eqb (Error e) "Contains no tags" = false.
Proof. by intros [[n ->]|[[n ->]|(p & n & _ & ->)]]. Qed.

Lemma endTagError_nesting (e : error) : isEndTagError e -> isNestingError e.
Proof. intros [He|He]; [right; by left|right; by right]. Qed.

Section ErrorFacts.
Context {T : Type} `{HtmlTexter T}.
Implicit Types (st : State T) (names : list string) (t : option T).

(** The turns on the tokens stop on an end tag only, with a stray end
    tag or a mismatch; until then the stack holds start tags that are
    not void. *)
Lemma steps_cases m z toks names u t :
  Forall (fun n => index_bool voidElements n = false) names ->
  names = [] \/ u = false ->
  (exists e st', steps m z toks (mkState (stackOf names) u t)
                 = Return (Some e) st' /\
     isEndTagError e /\ forallb isText toks = false) \/
  (exists names' u' t', steps m z toks (mkState (stackOf names) u t)
                        = Continue (mkState (stackOf names') u' t') /\
     Forall (fun n => index_bool voidElements n = false) names' /\
     u' = u && forallb isText toks /\ (names' = [] \/ u' = false)).
Proof.
  revert names u t. induction toks as [|tok toks IH]; intros names u t Hv Hinv.
  - right. exists names, u, t. cbn. by rewrite andb_true_r.
  - cbn [steps forallb].
    assert (forall names1 t1,
      Forall (fun n => index_bool voidElements n = false) names1 ->
      isText tok = false ->
      (exists e st', steps m z toks (mkState (stackOf names1) false t1)
                     = Return (Some e) st' /\
         isEndTagError e /\ isText tok && forallb isText toks = false) \/
      (exists names' u' t', steps m z toks (mkState (stackOf names1) false t1)
                            = Continue (mkState (stackOf names') u' t') /\
         Forall (fun n => index_bool voidElements n = false) names' /\
         u' = u && (isText tok && forallb isText toks) /\
         (names' = [] \/ u' = false))) as Hnext.
    { intros names1 t1 Hv1 Htok.
      destruct (IH names1 false t1 Hv1 (or_intror eq_refl))
        as [(e & st' & E & He & _)|(names' & u' & t' & E & Hv' & Hu' & Hi')].
      - left. exists e, st'. by rewrite Htok.
      - right. exists names', u', t'. rewrite Htok, andb_false_r.
        by cbn in Hu'. }
    destruct tok as [x|n|n|n|x|x].
    + rewrite body_TextTok. cbn [isText andb]. by apply IH.
    + rewrite body_StartTag. destruct (index_bool voidElements n) eqn:Hn.
      * by apply Hnext.
      * apply (Hnext (n :: names)); [by constructor|done].
    + rewrite body_EndTag. destruct names as [|p names].
      * left. eexists _, _. split; [done|]. split; [|done].
        left. by exists n.
      * destruct Hinv as [Hnil | ->]; [done|].
        destruct (decide (p = n)) as [->|Hne].
        -- apply Hnext; [by apply Forall_inv_tail in Hv|done].
        -- left. eexists _, _. split; [done|]. split; [|done].
           right. by exists p, n.
    + rewrite body_SelfClosingTag. by apply Hnext.
    + rewrite body_CommentTok. by apply Hnext.
    + rewrite body_DoctypeTok. by apply Hnext.
Qed.

End ErrorFacts.

(** X6.  An end tag of a void element is always an error: void elements
    are never on the stack, so [</br>] is a stray end tag or a mismatch
    wherever it stands, also right after [<br>]. *)
Theorem void_end_tag_rejected (T : Type) (H : HtmlTexter T) (z : Tokenizer)
    (mustTag : bool) (t : option T) (pre post : list Token) (tag : string) :
  tokens z = pre ++ EndTagTok tag :: post ->
  index_bool voidElements tag = true ->
  exists e st, simpleParse z mustTag t = Return (Some e) st /\
               ((exists n, e = StrayEndTagError n) \/
                (exists p n, p <> n /\ e = TagMismatchError p n)).
Proof.
  intros Hz Hv. unfold simpleParse. rewrite Hz, run_app.
  unfold stack.New. change (@nil any) with (stackOf []).
  destruct (steps_cases mustTag z pre [] true t (Forall_nil_2 _) (or_introl eq_refl))
    as [(e & st' & -> & He & _)|(names & u' & t' & -> & Hn & _ & _)].
  - by exists e, st'.
  - cbn [run]. rewrite body_EndTag. destruct names as [|p names].
    + eexists _, _. split; [done|]. left. by exists tag.
    + apply Forall_inv in Hn. destruct (decide (p = tag)) as [->|Hne];
        [congruence|].
      eexists _, _. split; [done|]. right. by exists p, tag.
Qed.

Lemma void_end_tag_rejected_witness :
  exists e st,
    simpleParse (html.NewTokenizer "<p><br></br></p>") false
                (Some (mkSimpleTexter "" LFs)) = Return (Some e) st /\
    ((exists n, e = StrayEndTagError n) \/
     (exists p n, p <> n /\ e = TagMismatchError p n)).
Proof.
  apply (void_end_tag_rejected simpleTexter _
           (html.NewTokenizer "<p><br></br></p>") false
           (Some (mkSimpleTexter "" LFs))
           [StartTagTok "p"; StartTagTok "br"] [EndTagTok "p"] "br");
    reflexivity.
Defined.

(** X7.  Whatever the tokens, an error of [simpleParse] is one of three
    kinds: a nesting error it builds itself (unterminated tag, stray end
    tag, mismatch of two different names); "Contains no tags", only when
    tags are required, the input ended and every token was text; or the
    error of the tokenizer, when that is not [io.EOF]. *)
Theorem simpleParse_error_kinds (T : Type) (H : HtmlTexter T) (z : Tokenizer)
    (mustTag : bool) (t : option T) (e : error) (st : State T) :
  simpleParse z mustTag t = Return (Some e) st ->
  isNestingError e \/
  (e = NoTagsError /\ mustTag = true /\ Err z = io_EOF /\
   forallb isText (tokens z) = true) \/
  (e = Err z /\ Err z <> io_EOF).
Proof.
  unfold simpleParse, stack.New. change (@nil any) with (stackOf []).
  rewrite run_steps.
  destruct (steps_cases mustTag z (tokens z) [] true t
              (Forall_nil_2 _) (or_introl eq_refl))
    as [(e1 & st1 & -> & He & _)|(names & u' & t' & -> & _ & Hu & Hi)].
  - intros [= <- <-]. left. by apply endTagError_nesting.
  - rewrite body_ErrorToken. cbn in Hu.
    destruct (decide (Err z = io_EOF)) as [Hz|Hz].
    + destruct names as [|p names].
      * destruct (u' && mustTag) eqn:Hum; [|done].
        apply andb_prop in Hum as [-> ->]. intros [= <- <-].
        right; left. by rewrite <- Hu.
      * intros [= <- <-]. left; left. by exists p.
    + intros [= <- <-]. right; right. done.
Qed.

Lemma simpleParse_error_kinds_witness :
  isNestingError (TagMismatchError "p" "div") \/
  (TagMismatchError "p" "div" = NoTagsError /\ true = true /\
   Err (html.NewTokenizer "<p>Hi</div>") = io_EOF /\
   forallb isText (tokens (html.NewTokenizer "<p>Hi</div>")) = true) \/
  (TagMismatchError "p" "div" = Err (html.NewTokenizer "<p>Hi</div>") /\
   Err (html.NewTokenizer "<p>Hi</div>") <> io_EOF).
Proof.
  apply (simpleParse_error_kinds simpleTexter _
           (html.NewTokenizer "<p>Hi</div>") true
           (Some (mkSimpleTexter "" LFs)) (TagMismatchError "p" "div")
           (mkState [] false (Some (mkSimpleTexter (LFs +:+ "Hi") LFs)))).
  reflexivity.
Defined.

(** X8.  When the tokenizer ends with [io.EOF], [IsPlainText] is [true]
    exactly when every token is a text token: one start tag,
    self-closing tag, end tag, comment or doctype makes it [false], also
    in a source that is not well formed. *)
Theorem IsPlainText_text_only (NewTokenizer : string -> Tokenizer)
    (src : string) :
  Err (NewTokenizer src) = io_EOF ->
  IsPlainText NewTokenizer src
  = Returns (forallb isText (tokens (NewTokenizer src))).
Proof.
  intros Hz. unfold IsPlainText, simpleParse, stack.New.
  change (@nil any) with (stackOf []). rewrite run_steps.
  destruct (steps_cases (T := Empty_set) true (NewTokenizer src)
              (tokens (NewTokenizer src)) [] true None
              (Forall_nil_2 _) (or_introl eq_refl))
    as [(e1 & st1 & -> & He & ->)|(names & u' & t' & -> & _ & Hu & Hi)].
  - f_equal. by apply nesting_not_NoTags, endTagError_nesting.
  - rewrite body_ErrorToken, Hz. cbn in Hu. rewrite <- Hu.
    destruct (decide (io_EOF = io_EOF)); [|done].
    destruct names as [|p names].
    + rewrite andb_true_r. by destruct u'.
    + destruct Hi as [Hi | ->]; done.
Qed.

Lemma IsPlainText_text_only_witness :
  IsPlainText html.NewTokenizer "a <!-- b --> c"
  = Returns (forallb isText (tokens (html.NewTokenizer "a <!-- b --> c"))).
Proof.
  apply (IsPlainText_text_only html.NewTokenizer "a <!-- b --> c").
  reflexivity.
Defined.

(** X9.  Requiring tags changes the result only for an input that ended
    with every token a text token: when one token is not text, or the
    tokenizer ends with another error than [io.EOF], [simpleParse]
    returns the same with [mustTag = true] and with [mustTag = false]. *)
Theorem mustTag_matters_for_text_only (T : Type) (H : HtmlTexter T)
    (z : Tokenizer) (t : option T) :
  forallb isText (tokens z) = false \/ Err z <> io_EOF ->
  simpleParse z true t = simpleParse z false t.
Proof.
  intros Hc. unfold simpleParse, stack.New.
  change (@nil any) with (stackOf []).
  rewrite !run_steps, (steps_indep true false z z).
  destruct (steps_cases false z (tokens z) [] true t
              (Forall_nil_2 _) (or_introl eq_refl))
    as [(e1 & st1 & -> & _)|(names & u' & t' & -> & _ & Hu & _)]; [done|].
  rewrite !body_ErrorToken. cbn in Hu.
  destruct (decide (Err z = io_EOF)) as [Hz|Hz]; [|done].
  destruct Hc as [Hc|Hc]; [|done].
  destruct names; [|done]. by rewrite Hu, Hc.
Qed.

Lemma mustTag_matters_for_text_only_witness :
  simpleParse (html.NewTokenizer "x<br>y") true (Some (mkSimpleTexter "" LFs))
  = simpleParse (html.NewTokenizer "x<br>y") false
                (Some (mkSimpleTexter "" LFs)).
Proof.
  apply (mustTag_matters_for_text_only simpleTexter _
           (html.NewTokenizer "x<br>y") (Some (mkSimpleTexter "" LFs))).
  left. reflexivity.
Defined.

(** ** cleanWhiteSpace, once more *)

Lemma wsStrip_space (r : string) : wsStrip (String SP r) = Some r.
Proof. reflexivity. Qed.

Lemma skipWhiteSpace_stops (f : nat) (s : string) :
  (String.length s <= f)%nat -> wsStrip (skipWhiteSpace f s) = None.
Proof.
  revert s. induction f as [|f IH]; intros s Hf; cbn [skipWhiteSpace].
  - by destruct s; [|cbn in Hf; lia].
  - destruct (wsStrip s) as [r|] eqn:E; [|done].
    apply wsStrip_length in E. apply IH. lia.
Qed.

Lemma skipRun_stops (s : string) : wsStrip (skipRun s) = None.
Proof. by apply skipWhiteSpace_stops. Qed.

Lemma skipRun_length (s : string) :
  (String.length (skipRun s) <= String.length s)%nat.
Proof. apply skipWhiteSpace_length. Qed.

(** Cleaning does not complete the encoding of a white-space rune. *)
Lemma strip_tail_clean (tl x : string) :
  allCont tl = true ->
  strip_prefix tl x = None -> strip_prefix tl (cleanWhiteSpace x) = None.
Proof.
  revert x. induction tl as [|d tl IH]; intros x Hc; [done|].
  cbn [allCont] in Hc. apply andb_prop in Hc as [Hd Hc].
  destruct x as [|b x]; [done|].
  destruct (wsStrip (String b x)) as [r|] eqn:E.
  - intros _. rewrite (cleanWhiteSpace_ws _ _ E). cbn [strip_prefix].
    destruct (Ascii.eqb d SP) eqn:Ed; [|done].
    apply Ascii.eqb_eq in Ed. by subst d.
  - rewrite cleanWhiteSpace_plain by done. cbn [strip_prefix].
    destruct (Ascii.eqb d b); [|done]. by apply IH.
Qed.

Lemma wsStrip_clean_None (x : string) :
  wsStrip x = None -> wsStrip (cleanWhiteSpace x) = None.
Proof.
  destruct x as [|a x]; [done|]. intros E.
  rewrite cleanWhiteSpace_plain by done. revert E.
  unfold wsStrip. rewrite !firstMatch_None.
  pose proof whiteSpaceRunes_wellEncoded as Hw. revert Hw.
  generalize whiteSpaceRunes as table. intros table Hw Hn.
  induction Hn as [|e table He Hn IH]; [constructor|].
  apply Forall_cons in Hw as [We Hw]. constructor; [|by apply IH].
  destruct e as [|c tl]; [done|]. destruct We as [_ Wt].
  cbn [strip_prefix] in *. destruct (Ascii.eqb c a); [|done].
  by apply strip_tail_clean.
Qed.

Lemma cleanWhiteSpace_normal (s : string) : wsNormal (cleanWhiteSpace s) = true.
Proof.
  remember (String.length s) as n eqn:En.
  revert s En. induction (lt_wf n) as [n _ IH]. intros s ->.
  destruct s as [|a r]; [done|].
  destruct (wsStrip (String a r)) as [r'|] eqn:E.
  - rewrite (cleanWhiteSpace_ws _ _ E). cbn [wsNormal].
    rewrite wsStrip_space, Ascii.eqb_refl.
    rewrite (wsStrip_clean_None _ (skipRun_stops r')). cbn [andb].
    apply wsStrip_length in E. pose proof (skipRun_length r').
    apply (IH (String.length (skipRun r'))); [lia|done].
  - rewrite cleanWhiteSpace_plain by done. cbn [wsNormal].
    assert (wsStrip (String a (cleanWhiteSpace r)) = None) as ->.
    { rewrite <- (cleanWhiteSpace_plain a r E). by apply wsStrip_clean_None. }
    apply (IH (String.length r)); [cbn; lia|done].
Qed.

Lemma wsNormal_fixed (s : string) : wsNormal s = true -> cleanWhiteSpace s = s.
Proof.
  induction s as [|a r IH]; [done|]. cbn [wsNormal].
  destruct (wsStrip (String a r)) as [r'|] eqn:E.
  - intros Hn. apply andb_prop in Hn as [Hn Hr].
    apply andb_prop in Hn as [Ha Hs]. apply Ascii.eqb_eq in Ha. subst a.
    rewrite wsStrip_space in E. injection E as <-.
    rewrite (cleanWhiteSpace_ws _ r) by apply wsStrip_space.
    destruct (wsStrip r) eqn:Er; [done|].
    rewrite skipRun_plain by done. f_equal. by apply IH.
  - intros Hr. rewrite cleanWhiteSpace_plain by done. f_equal. by apply IH.
Qed.

Lemma wsNormal_no_break (a : ascii) (pre r : string) :
  a = LF \/ a = CR \/ a = byte_of 9 \/ a = byte_of 12 ->
  wsNormal (pre +:+ String a r) = false.
Proof.
  intros Ha. induction pre as [|b pre IH].
  - change ("" +:+ String a r) with (String a r). cbn [wsNormal].
    assert (wsStrip (String a r) = Some r) as ->
      by (by destruct Ha as [-> | [-> | [-> | ->]]]).
    by destruct Ha as [-> | [-> | [-> | ->]]].
  - change (String b pre +:+ String a r)
      with (String b (pre +:+ String a r)).
    cbn [wsNormal]. rewrite IH.
    destruct (wsStrip _); [|done]. by rewrite andb_false_r.
Qed.

(** X10.  In the output of [cleanWhiteSpace] every white-space rune is
    one ASCII space and no white-space rune follows it: no two spaces in
    a row, and no tab, form feed, carriage return or line feed at any
    place. *)
Theorem cleanWhiteSpace_output_normal (s pre r : string) (a : ascii) :
  a = LF \/ a = CR \/ a = byte_of 9 \/ a = byte_of 12 ->
  wsNormal (cleanWhiteSpace s) = true /\
  cleanWhiteSpace s <> pre +:+ String a r.
Proof.
  intros Ha. split; [apply cleanWhiteSpace_normal|].
  intros E. pose proof (cleanWhiteSpace_normal s) as Hn.
  rewrite E, wsNormal_no_break in Hn; done.
Qed.

Lemma cleanWhiteSpace_output_normal_witness :
  wsNormal (cleanWhiteSpace (String "a" (String LF (String LF "b")))) = true /\
  cleanWhiteSpace (String "a" (String LF (String LF "b")))
  <> "a" +:+ String LF "b".
Proof.
  apply (cleanWhiteSpace_output_normal
           (String "a" (String LF (String LF "b"))) "a" "b" LF).
  left. reflexivity.
Defined.

(** X11.  [cleanWhiteSpace] is idempotent. *)
Theorem cleanWhiteSpace_idempotent (s : string) :
  cleanWhiteSpace (cleanWhiteSpace s) = cleanWhiteSpace s.
Proof. apply wsNormal_fixed, cleanWhiteSpace_normal. Qed.

(** X12.  [cleanWhiteSpace] never makes its input longer. *)
Theorem cleanWhiteSpace_length (s : string) :
  (String.length (cleanWhiteSpace s) <= String.length s)%nat.
Proof.
  remember (String.length s) as n eqn:En.
  revert s En. induction (lt_wf n) as [n _ IH]. intros s ->.
  destruct s as [|a r]; [done|].
  destruct (wsStrip (String a r)) as [r'|] eqn:E.
  - rewrite (cleanWhiteSpace_ws _ _ E).
    apply wsStrip_length in E. pose proof (skipRun_length r').
    cbn [String.length] in *.
    specialize (IH (String.length (skipRun r')) ltac:(lia) _ eq_refl). lia.
  - rewrite cleanWhiteSpace_plain by done. cbn [String.length].
    specialize (IH (String.length r) ltac:(cbn; lia) _ eq_refl). lia.
Qed.

(** ** The buffer of the default builder *)

Lemma extends_refl (h : simpleTexter) : extends h h.
Proof. split; [done|]. exists "". by rewrite append_nil_r. Qed.

Lemma extends_trans (h1 h2 h3 : simpleTexter) :
  extends h1 h2 -> extends h2 h3 -> extends h1 h3.
Proof.
  intros [L1 [x E1]] [L2 [y E2]]. split; [congruence|].
  exists (x +:+ y). by rewrite E2, E1, append_assoc.
Qed.

Lemma extends_WriteString (s : string) (h : simpleTexter) :
  extends h (WriteString s h).
Proof. split; [done|]. by exists s. Qed.

Lemma extends_Text (enclosing x : string) (h : simpleTexter) :
  extends h (simpleTexter_Text enclosing x h).
Proof.
  unfold simpleTexter_Text.
  destruct (negb _); [apply extends_WriteString|apply extends_refl].
Qed.

Lemma body_extends m z cur names u (h : simpleTexter) :
  match body m z cur (mkState (stackOf names) u (Some h)) with
  | Continue st' | Return _ st' =>
      exists names' h', st' = mkState (stackOf names') (untagged st') (Some h')
                        /\ extends h h'
  | Panic => False
  end.
Proof.
  destruct cur as [[x|n|n|n|x|x]|].
  - rewrite body_TextTok. eexists _, _. split; [done|]. apply extends_Text.
  - rewrite body_StartTag. destruct (index_bool voidElements n); cbn.
    + exists names. eexists. split; [done|]. apply extends_WriteString.
    + exists (n :: names). eexists. split; [done|]. apply extends_WriteString.
  - rewrite body_EndTag. destruct names as [|p names].
    + exists []. eexists. split; [done|]. apply extends_refl.
    + destruct (decide (p = n)); exists names; eexists; (split; [done|]).
      * apply extends_WriteString.
      * apply extends_refl.
  - rewrite body_SelfClosingTag. exists names. eexists. split; [done|].
    apply extends_WriteString.
  - rewrite body_CommentTok. exists names. eexists. split; [done|].
    apply extends_WriteString.
  - rewrite body_DoctypeTok. exists names. eexists. split; [done|].
    apply extends_WriteString.
  - rewrite body_ErrorToken. destruct (decide _).
    + destruct names as [|p names].
      * destruct (u && m); exists []; eexists; (split; [done|]);
          apply extends_refl.
      * exists names. eexists. split; [done|]. apply extends_refl.
    + exists names. eexists. split; [done|]. apply extends_refl.
Qed.

Lemma run_extends m z toks names u (h : simpleTexter) :
  exists err names' u' h',
    run m z toks (mkState (stackOf names) u (Some h))
    = Return err (mkState (stackOf names') u' (Some h')) /\ extends h h'.
Proof.
  revert names u h. induction toks as [|tok toks IH]; intros names u h;
    cbn [run].
  - pose proof (body_extends m z None names u h) as Hb.
    destruct (body m z None _) as [st'|err st'|] eqn:E; [|  |done].
    + by apply body_None_not_Continue in E.
    + destruct Hb as (names' & h' & -> & He). by eexists _, _, _, _.
  - pose proof (body_extends m z (Some tok) names u h) as Hb.
    destruct (body m z (Some tok) _) as [st'|err st'|]; [| |done].
    + destruct Hb as (names' & h' & -> & He).
      destruct (IH names' (untagged st') h') as (e & n2 & u2 & h2 & -> & He2).
      eexists _, _, _, _. split; [done|]. by eapply extends_trans.
    + destruct Hb as (names' & h' & -> & He). by eexists _, _, _, _.
Qed.

(** X13.  The default builder is written to at its end only: after
    [simpleParse], with or without an error, its buffer is the buffer it
    had before followed by what the parse wrote, and its line break is
    the same. *)
Theorem simpleTexter_buffer_append_only (z : Tokenizer) (mustTag : bool)
    (h : simpleTexter) :
  exists err st x,
    simpleParse z mustTag (Some h) = Return err st /\
    texter st = Some (mkSimpleTexter (sb h +:+ x) (lbr h)).
Proof.
  unfold simpleParse, stack.New. change (@nil any) with (stackOf []).
  destruct (run_extends mustTag z (tokens z) [] true h)
    as (err & names & u & [b l] & -> & Hl & x & Hx).
  cbn in Hl, Hx. subst. by eexists _, _, x.
Qed.

(** X14.  The text [HTML2Text] returns has no space, carriage return or
    line feed at its start or at its end. *)
Theorem HTML2Text_result_trimmed (NewTokenizer : string -> Tokenizer)
    (src : string) (winLbr : list bool) :
  exists s, HTML2Text NewTokenizer src winLbr = Returns s /\
            outside cutset_String (firstByte s) /\
            outside cutset_String (lastByte s).
Proof.
  unfold HTML2Text, simpleParse, stack.New. change (@nil any) with (stackOf []).
  set (h0 := mkSimpleTexter "" _).
  destruct (run_extends false (NewTokenizer src) (tokens (NewTokenizer src))
              [] true h0) as (err & names & u & h' & -> & _).
  destruct err as [e|].
  - by exists "".
  - eexists. split; [done|]. apply Trim_trimmed.
Qed.

Lemma steps_texts m z toks u (h : simpleTexter) :
  forallb isText toks = true ->
  steps m z toks (mkState (stackOf []) u (Some h))
  = Continue (mkState (stackOf []) u
                (Some (mkSimpleTexter (sb h +:+ cleanTexts toks) (lbr h)))).
Proof.
  revert h. induction toks as [|tok toks IH]; intros [b l]; cbn [forallb steps].
  - intros _. cbn. by rewrite append_nil_r.
  - destruct tok as [x| | | | |]; try done. cbn [isText andb]. intros Ht.
    rewrite body_TextTok. cbn [fmap option_fmap option_map enclosingOf].
    change (Text "" x (mkSimpleTexter b l))
      with (mkSimpleTexter (b +:+ cleanWhiteSpace x) l).
    rewrite IH by done. cbn [sb lbr cleanTexts foldr TextOf].
    by rewrite append_assoc.
Qed.

(** X15.  On a source whose tokens are all text tokens (where
    [IsPlainText] says [true]), [HTML2Text] returns the texts, each
    cleaned, put end to end and trimmed, whatever the line-break style. *)
Theorem HTML2Text_plain_text (NewTokenizer : string -> Tokenizer)
    (src : string) (winLbr : list bool) :
  Err (NewTokenizer src) = io_EOF ->
  forallb isText (tokens (NewTokenizer src)) = true ->
  HTML2Text NewTokenizer src winLbr
  = Returns (Trim (cleanTexts (tokens (NewTokenizer src))) cutset_String).
Proof.
  intros Hz Ht. unfold HTML2Text, simpleParse, stack.New.
  change (@nil any) with (stackOf []).
  rewrite run_steps, steps_texts by done.
  rewrite body_ErrorToken, Hz. destruct (decide (io_EOF = io_EOF)); [|done].
  by rewrite andb_false_r.
Qed.

Lemma HTML2Text_plain_text_witness :
  HTML2Text html.NewTokenizer "  hello   world " [true]
  = Returns (Trim (cleanTexts (tokens (html.NewTokenizer "  hello   world ")))
                  cutset_String).
Proof.
  apply (HTML2Text_plain_text html.NewTokenizer "  hello   world " [true]);
    reflexivity.
Defined.

(** ** A [nil] texter *)

(** X16.  [Custom2Text] called with a [nil] texter panics exactly when
    the parse succeeds, as it then calls [String] on the [nil] texter;
    when the parse fails it returns the error. *)
Theorem Custom2Text_nil_texter (T : Type) (H : HtmlTexter T)
    (NewTokenizer : string -> Tokenizer) (src : string) (mustTag : bool) :
  exists err st,
    simpleParse (NewTokenizer src) false (@None T) = Return err st /\
    Custom2Text NewTokenizer src mustTag (@None T) =
    match err with
    | None => Panics
    | Some e => Returns ("", Some e)
    end.
Proof.
  destruct (simpleParse_returns (NewTokenizer src) false (@None T))
    as (err & st & E).
  exists err, st. split; [done|]. unfold Custom2Text. rewrite E.
  destruct err as [e|]; [done|].
  unfold simpleParse in E. apply run_texter in E. destruct st as [s u [h|]].
  - cbn in E. destruct E as [E _]. by destruct E.
  - done.
Qed.

(** ** The first error *)

(** X17.  A stray end tag or a mismatch is final: when the parse of some
    tokens (ending with [io.EOF]) fails with one, the parse of these
    tokens followed by any others fails with the same error, whatever
    [mustTag] and the error the longer input ends with. *)
Theorem end_tag_error_is_final (T : Type) (H : HtmlTexter T)
    (z1 z2 : Tokenizer) (m1 m2 : bool) (t : option T) (e : error)
    (st : State T) (post : list Token) :
  Err z1 = io_EOF ->
  simpleParse z1 m1 t = Return (Some e) st ->
  isEndTagError e ->
  tokens z2 = tokens z1 ++ post ->
  simpleParse z2 m2 t = Return (Some e) st.
Proof.
  intros Hz E He Ht. unfold simpleParse in *. rewrite Ht, run_app.
  rewrite run_steps in E. rewrite (steps_indep m2 m1 z2 z1).
  unfold stack.New in *. change (@nil any) with (stackOf []) in *.
  destruct (steps_cases m1 z1 (tokens z1) [] true t
              (Forall_nil_2 _) (or_introl eq_refl))
    as [(e1 & st1 & Es & _)|(names & u' & t' & Es & _)];
    rewrite Es in E |- *; [done|].
  exfalso. rewrite body_ErrorToken, Hz in E.
  destruct (decide (io_EOF = io_EOF)); [|done].
  destruct names as [|p names].
  - destruct (u' && m1); [|done]. injection E as <- <-.
    by destruct He as [[n Hn]|(q & n & _ & Hn)].
  - injection E as <- <-.
    by destruct He as [[n Hn]|(q & n & _ & Hn)].
Qed.

Lemma end_tag_error_is_final_witness :
  simpleParse (html.NewTokenizer "<p>a</div>b</p>") true
              (Some (mkSimpleTexter "" LFs))
  = Return (Some (TagMismatchError "p" "div"))
           (mkState [] false (Some (mkSimpleTexter (LFs +:+ "a") LFs))).
Proof.
  apply (end_tag_error_is_final simpleTexter _
           (html.NewTokenizer "<p>a</div>")
           (html.NewTokenizer "<p>a</div>b</p>") false true
           (Some (mkSimpleTexter "" LFs)) (TagMismatchError "p" "div")
           (mkState [] false (Some (mkSimpleTexter (LFs +:+ "a") LFs)))
           [TextTok "b"; EndTagTok "p"]).
  - reflexivity.
  - reflexivity.
  - right. exists "p", "div". split; [discriminate|reflexivity].
  - reflexivity.
Defined.

(** ** Elements the default builder does not see *)

Lemma simpleTexter_Text_enclosing (enc1 enc2 x : string)
    (o : option simpleTexter) :
  (enc1 = "title" <-> enc2 = "title") ->
  Text enc1 x <$> o = Text enc2 x <$> o.
Proof.
  intros Hi. destruct o as [h|]; [|done]. cbn. f_equal.
  unfold simpleTexter_Text.
  destruct (String.eqb_spec enc1 "title") as [E1|E1],
           (String.eqb_spec enc2 "title") as [E2|E2]; try done.
  - by apply Hi in E1.
  - by apply Hi in E2.
Qed.

Lemma simpleTexter_StartTag_silent (n : string) (o : option simpleTexter) :
  index_int openingBreakers n = 0 -> StartTag n <$> o = o.
Proof.
  intros Hn. destruct o as [h|]; [|done]. cbn. f_equal.
  unfold simpleTexter_StartTag. rewrite Hn. apply WriteString_nil.
Qed.

Lemma simpleTexter_EndTag_silent (n : string) (o : option simpleTexter) :
  index_int closingBreakers n = 0 -> EndTag n <$> o = o.
Proof.
  intros Hn. destruct o as [h|]; [|done]. cbn. f_equal.
  unfold simpleTexter_EndTag. rewrite Hn. apply WriteString_nil.
Qed.

(** What a well-nested sequence writes depends on the stack it starts
    from only through whether the innermost open tag is [title]. *)
Lemma steps_nested_texter m z toks :
  nested toks ->
  forall names1 names2 u1 u2 (o : option simpleTexter),
    (enclosingOf names1 = "title" <-> enclosingOf names2 = "title") ->
    exists u1' u2' o',
      steps m z toks (mkState (stackOf names1) u1 o)
      = Continue (mkState (stackOf names1) u1' o') /\
      steps m z toks (mkState (stackOf names2) u2 o)
      = Continue (mkState (stackOf names2) u2' o').
Proof.
  induction 1 as [|tok toks Hl _ IH|n inner rest Hn _ IHi _ IHr];
    intros names1 names2 u1 u2 o Hi.
  - by exists u1, u2, o.
  - cbn [steps]. destruct tok as [x|n|n|n|x|x]; cbn [isLeaf] in Hl; try done.
    + rewrite !body_TextTok.
      rewrite (simpleTexter_Text_enclosing _ _ x o Hi). by apply IH.
    + rewrite !body_StartTag, Hl. cbn [tagStack texter]. by apply IH.
    + rewrite !body_SelfClosingTag. cbn [tagStack texter]. by apply IH.
    + rewrite !body_CommentTok. cbn [tagStack texter]. by apply IH.
    + rewrite !body_DoctypeTok. cbn [tagStack texter]. by apply IH.
  - cbn [steps]. rewrite !body_StartTag, Hn. cbn [tagStack texter].
    change (any_string n :: stackOf ?l) with (stackOf (n :: l)).
    rewrite !steps_app.
    destruct (IHi (n :: names1) (n :: names2) false false (StartTag n <$> o))
      as (v1 & v2 & o1 & -> & ->); [done|].
    cbn [steps]. rewrite !body_EndTag.
    destruct (decide (n = n)); [|done]. by apply IHr.
Qed.

Lemma stackOf_inj (a b : list string) : stackOf a = stackOf b -> a = b.
Proof.
  revert b. induction a as [|x a IH]; intros [|y b]; try done.
  intros [= -> E]. f_equal. by apply IH.
Qed.

(** Without a start tag [title], no [title] is ever on the stack. *)
Lemma steps_noTitle {T : Type} `{HtmlTexter T} m z toks names u
    (t : option T) names' u' t' :
  noTitle toks = true -> Forall (fun n => n <> "title") names ->
  steps m z toks (mkState (stackOf names) u t)
  = Continue (mkState (stackOf names') u' t') ->
  Forall (fun n => n <> "title") names'.
Proof.
  revert names u t. induction toks as [|tok toks IH]; intros names u t;
    cbn [noTitle forallb steps].
  - intros _ Hn [= E _ _]. apply stackOf_inj in E. by subst.
  - intros Hnt Hn. apply andb_prop in Hnt as [Htok Hnt].
    destruct tok as [x|n|n|n|x|x].
    + rewrite body_TextTok. by apply IH.
    + rewrite body_StartTag. destruct (index_bool voidElements n).
      * by apply IH.
      * apply (IH (n :: names)); [done|]. constructor; [|done].
        by apply negb_true_iff, String.eqb_neq in Htok.
    + rewrite body_EndTag. destruct names as [|p names]; [done|].
      destruct (decide (p = n)); [|done]. apply IH; [done|].
      by apply Forall_inv_tail in Hn.
    + rewrite body_SelfClosingTag. by apply IH.
    + rewrite body_CommentTok. by apply IH.
    + rewrite body_DoctypeTok. by apply IH.
Qed.

(** X18.  An element without line breaks in the tables (a [span], a [b],
    a [div]) is transparent for [HTML2Text]: putting well-nested tokens
    between its start tag and its end tag does not change the result,
    provided no [title] was opened before. *)
Theorem HTML2Text_transparent_element (pre inner post : list Token)
    (n : string) (e : error) (src : string) (winLbr : list bool) :
  index_bool voidElements n = false ->
  index_int openingBreakers n = 0 ->
  index_int closingBreakers n = 0 ->
  n <> "title" ->
  nested inner ->
  noTitle pre = true ->
  HTML2Text (fun _ => mkTokenizer
     (pre ++ StartTagTok n :: inner ++ EndTagTok n :: post) e) src winLbr
  = HTML2Text (fun _ => mkTokenizer (pre ++ inner ++ post) e) src winLbr.
Proof.
  intros Hv Ho Hc Hn Hi Hp. unfold HTML2Text, simpleParse. cbn [tokens].
  set (h0 := mkSimpleTexter "" _).
  set (z1 := mkTokenizer (pre ++ StartTagTok n :: _) e).
  set (z2 := mkTokenizer (pre ++ inner ++ post) e).
  rewrite !run_app, (steps_indep false false z1 z2).
  pose proof (steps_stackOf false z2 pre [] true (Some h0)) as Hs.
  unfold stack.New. change (@nil any) with (stackOf []).
  destruct (steps false z2 pre _) as [[s1 u1 o1]|e1 s1|] eqn:Es; [|done|done].
  destruct Hs as [names Hnames]; cbn in Hnames; subst s1.
  apply steps_noTitle in Es; [|done|constructor].
  cbn [run]. rewrite body_StartTag, Hv. cbn [tagStack texter].
  change (any_string n :: stackOf names) with (stackOf (n :: names)).
  rewrite simpleTexter_StartTag_silent by done.
  rewrite !run_app.
  destruct (steps_nested_texter false z1 inner Hi (n :: names) names false u1 o1)
    as (v1 & v2 & o' & E1 & E2).
  { cbn [enclosingOf]. split; [done|]. destruct names as [|p names]; [done|].
    cbn. by apply Forall_inv in Es. }
  rewrite E1, (steps_indep false false z2 z1), E2.
  cbn [run]. rewrite body_EndTag. destruct (decide (n = n)); [|done].
  rewrite simpleTexter_EndTag_silent by done.
  rewrite (run_same_Err false z1 z2) by done.
  pose proof (run_loose z2 post names v1 v2 o') as Hr.
  destruct (run false z2 post (mkState _ v1 o')) as [|r1 [a1 b1 c1]|],
           (run false z2 post (mkState _ v2 o')) as [|r2 [a2 b2 c2]|]; try done.
  destruct Hr as (-> & names' & _ & _ & _ & Hc'). cbn in Hc'. by subst c2.
Qed.

Lemma HTML2Text_transparent_element_witness :
  HTML2Text (fun _ => mkTokenizer
     ([StartTagTok "p"] ++ StartTagTok "span"
        :: [TextTok "a"; StartTagTok "br"; TextTok "b"] ++ EndTagTok "span"
        :: [EndTagTok "p"]) io_EOF) "" []
  = HTML2Text (fun _ => mkTokenizer
     ([StartTagTok "p"] ++ [TextTok "a"; StartTagTok "br"; TextTok "b"]
        ++ [EndTagTok "p"]) io_EOF) "" [].
Proof.
  apply (HTML2Text_transparent_element [StartTagTok "p"]
           [TextTok "a"; StartTagTok "br"; TextTok "b"] [EndTagTok "p"]
           "span" io_EOF "" []).
  - reflexivity.
  - reflexivity.
  - reflexivity.
  - discriminate.
  - repeat (apply nested_leaf; [reflexivity|]). apply nested_nil.
  - reflexivity.
Defined.

(** ** The two line-break styles *)

Lemma crlf_app (a b : string) : crlf (a +:+ b) = crlf a +:+ crlf b.
Proof.
  induction a as [|x a IH]; [done|].
  change (String x a +:+ b) with (String x (a +:+ b)). cbn [crlf].
  rewrite IH. by destruct (Ascii.eqb x LF).
Qed.

Lemma crlf_Repeat (k : Z) : crlf (Repeat LFs k) = Repeat CRLFs k.
Proof.
  unfold Repeat. induction (Z.to_nat k) as [|n IH]; [done|].
  cbn [repeat_string]. by rewrite crlf_app, IH.
Qed.

Lemma crlf_normal (s : string) : wsNormal s = true -> crlf s = s.
Proof.
  induction s as [|a r IH]; [done|]. cbn [wsNormal crlf].
  destruct (Ascii.eqb a LF) eqn:Ea.
  - apply Ascii.eqb_eq in Ea. subst a.
    replace (wsStrip (String LF r)) with (Some r) by reflexivity.
    by intros Hn.
  - intros Hn. f_equal. apply IH.
    destruct (wsStrip (String a r)); [|done].
    by apply andb_prop in Hn as [_ Hn].
Qed.

Lemma crlf_trimLeft (s : string) :
  trimLeftASCII (crlf s) cutset_String = crlf (trimLeftASCII s cutset_String).
Proof.
  induction s as [|a r IH]; [done|]. cbn [crlf trimLeftASCII].
  destruct (Ascii.eqb a LF) eqn:Ea.
  - apply Ascii.eqb_eq in Ea. subst a.
    replace (contains cutset_String LF) with true by reflexivity.
    cbn [trimLeftASCII].
    replace (contains cutset_String CR) with true by reflexivity.
    replace (contains cutset_String LF) with true by reflexivity.
    exact IH.
  - cbn [trimLeftASCII].
    destruct (contains cutset_String a); [exact IH|].
    cbn [crlf]. by rewrite Ea.
Qed.

Lemma crlf_trimRight (s : string) :
  trimRightASCII (crlf s) cutset_String = crlf (trimRightASCII s cutset_String).
Proof.
  induction s as [|a r IH]; [done|]. cbn [crlf].
  rewrite (trimRight_cons cutset_String a r).
  destruct (Ascii.eqb a LF) eqn:Ea.
  - apply Ascii.eqb_eq in Ea. subst a.
    rewrite !trimRight_cons, IH.
    replace (contains cutset_String CR) with true by reflexivity.
    replace (contains cutset_String LF) with true by reflexivity.
    destruct (trimRightASCII r cutset_String) as [|b r']; [done|].
    cbn [crlf]. destruct (Ascii.eqb b LF); cbn [crlf];
      by rewrite ?Ascii.eqb_refl.
  - rewrite trimRight_cons, IH.
    destruct (trimRightASCII r cutset_String) as [|b r'].
    + cbn [crlf]. destruct (contains cutset_String a); [done|].
      cbn [crlf]. by rewrite Ea.
    + cbn [crlf]. rewrite Ea. by destruct (Ascii.eqb b LF).
Qed.

Lemma crlf_Trim (s : string) :
  Trim (crlf s) cutset_String = crlf (Trim s cutset_String).
Proof. unfold Trim. by rewrite crlf_trimRight, crlf_trimLeft. Qed.

(** X19.  The two line-break styles give the same text up to the line
    break: the result of [HTML2Text] with [winLbr = true] is the result
    without it, with a carriage return before every line feed. *)
Theorem HTML2Text_windows_is_crlf (NewTokenizer : string -> Tokenizer)
    (src : string) :
  exists s, HTML2Text NewTokenizer src [] = Returns s /\
            HTML2Text NewTokenizer src [true] = Returns (crlf s).
Proof.
  unfold HTML2Text.
  assert (simOutcome crlfBuffer false
            (simpleParse (NewTokenizer src) false
                         (Some (mkSimpleTexter "" LFs)))
            (simpleParse (NewTokenizer src) false
                         (Some (mkSimpleTexter "" CRLFs)))) as Hs.
  { apply (run_sim _ _ crlfBuffer); try done.
    - intros tag [h1|] [h2|]; try done. intros (E1 & E2 & E3). cbn.
      rewrite E1, E2, E3. by rewrite crlf_app, crlf_Repeat.
    - intros tag [h1|] [h2|]; try done. intros (E1 & E2 & E3). cbn.
      rewrite E1, E2, E3. by rewrite crlf_app, crlf_Repeat.
    - intros tag [h1|] [h2|]; try done. intros (E1 & E2 & E3). cbn.
      rewrite E1, E2, E3. by rewrite crlf_app, crlf_Repeat.
    - intros enc x [h1|] [h2|]; try done. intros (E1 & E2 & E3). cbn.
      unfold simpleTexter_Text. destruct (negb _); [|done].
      unfold WriteString. cbn [crlfBuffer sb lbr].
      split; [done|]. split; [done|]. rewrite E3, crlf_app.
      by rewrite (crlf_normal _ (cleanWhiteSpace_normal x)).
    - exists []. cbn. repeat split; auto. }
  cbv beta iota zeta.
  change (String LF "") with LFs. change (String CR LFs) with CRLFs.
  destruct (simpleParse_returns (NewTokenizer src) false
              (Some (mkSimpleTexter "" LFs))) as (e1 & [a1 b1 c1] & R1).
  destruct (simpleParse_returns (NewTokenizer src) false
              (Some (mkSimpleTexter "" CRLFs))) as (e2 & [a2 b2 c2] & R2).
  rewrite R1, R2 in Hs |- *.
  destruct Hs as (-> & names & _ & _ & _ & Hb). cbn in Hb.
  destruct c1 as [h1|], c2 as [h2|]; try done.
  destruct Hb as (_ & _ & Hb). destruct e2; [by exists ""|].
  eexists. split; [done|]. cbn. by rewrite Hb, crlf_Trim.
Qed.
